(** * TSMT$Deviates: a shallow embedding of [src/src/deviates.ts]

    The class keeps nine instance fields and offers five methods; every
    method is embedded as a function from the instance state to a result and
    the next state.

    Numbers.  A JavaScript number is an IEEE 754 binary64 value.  The fields
    that the distribution transforms compute with ([normVal], [u], [s], [a],
    [b], [a1], [a2]) and every returned deviate are Rocq primitive floats,
    which are binary64 with round-to-nearest-even, so the arithmetic on them
    is the arithmetic of the source.  The seed [idum] and the entries of the
    shuffle table [iv] only ever hold integers (or NaN, when the caller
    passes NaN as the start value); they are embedded as [num], an integer
    [Z] or [NaN].  The embedding of the recurrence on [Z] is exact as long as
    the magnitudes stay below 2^53, which the theorems below establish for
    every start value below 2^53.  Beyond 2^53 the source rounds; the engine
    is embedded a second time for such start values, on binary64 throughout
    ([uniform64]). *)

From Stdlib Require Import ZArith Lia QArith Qround Floats Bool.
From stdpp Require Import base countable gmap.

Local Open Scope Z_scope.

(* Decimal literals denote the nearest binary64 value, as in the source. *)
#[local] Set Warnings "-inexact-float".

(** ** JavaScript numbers that hold an integer or NaN *)

Inductive num : Type :=
  | NaN : num
  | Int : Z -> num.

Definition num_to_option (n : num) : option Z :=
  match n with NaN => None | Int z => Some z end.

Definition num_of_option (o : option Z) : num :=
  match o with None => NaN | Some z => Int z end.

#[global] Instance num_eq_dec : EqDecision num.
Proof. solve_decision. Defined.

#[global] Instance num_countable : Countable num.
Proof.
  apply (inj_countable' num_to_option num_of_option).
  intros []; reflexivity.
Defined.

(** [isNaN(x)] *)
Definition isNaN (x : num) : bool :=
  match x with NaN => true | Int _ => false end.

(** [x < c] for an integer constant [c]; every comparison with NaN is false. *)
Definition num_ltb (x : num) (c : Z) : bool :=
  match x with NaN => false | Int z => z <? c end.

(** A value read from an array slot: [None] is [undefined]. *)
Definition ToNumber (v : option num) : num :=
  match v with None => NaN | Some n => n end.

(** The binary64 value of an integer.  The conversion is exact below 2^53. *)
Definition float_of_Z (z : Z) : float :=
  if z <? 0 then PrimFloat.opp (PrimFloat.of_uint63 (Uint63.of_Z (- z)))
  else PrimFloat.of_uint63 (Uint63.of_Z z).

Definition float_of_num (n : num) : float :=
  match n with NaN => nan | Int z => float_of_Z z end.

(** [isNaN] on a binary64 value. *)
Definition isNaN_f (x : float) : bool := negb (x =? x)%float.

(** ** The class constants *)

Definition IA : Z := 16807.
Definition IM : Z := 2147483647.
Definition AM : float := (1.0 / float_of_Z IM)%float.
Definition IQ : Z := 127773.
Definition IR : Z := 2836.
Definition NTAB : Z := 32.
(** [NDIV = 1 + (IM - 1)/NTAB] is a JavaScript (real) division, not the
    integer division of the C original: its value is 67108864.9375, which
    binary64 holds exactly. *)
Definition NDIV : Q := (1 + (inject_Z IM - 1) / inject_Z NTAB)%Q.
Definition EPS : float := 1.2e-7%float.
Definition RNMX : float := (1.0 - EPS)%float.

(** ** Instance state *)

Record state : Type := mkState {
  idum : num;
  iv : gmap num num;
  normVal : float;
  u : float;
  s : float;
  a : float;
  b : float;
  a1 : float;
  a2 : float
}.

Definition constructor : state :=
  {| idum := Int 0; iv := ∅; normVal := 0%float; u := 0%float; s := 1%float;
     a := 1.0%float; b := 1.0%float; a1 := 0.0%float; a2 := 0.0%float |}.

Definition set_engine (st : state) (i : num) (t : gmap num num) : state :=
  {| idum := i; iv := t; normVal := normVal st; u := u st; s := s st;
     a := a st; b := b st; a1 := a1 st; a2 := a2 st |}.

Definition set_normVal (st : state) (x : float) : state :=
  {| idum := idum st; iv := iv st; normVal := x; u := u st; s := s st;
     a := a st; b := b st; a1 := a1 st; a2 := a2 st |}.

Definition set_u_s (st : state) (mu sig : float) : state :=
  {| idum := idum st; iv := iv st; normVal := normVal st; u := mu; s := sig;
     a := a st; b := b st; a1 := a1 st; a2 := a2 st |}.

Definition set_gamma (st : state) (a' b' a1' a2' : float) : state :=
  {| idum := idum st; iv := iv st; normVal := normVal st; u := u st; s := s st;
     a := a'; b := b'; a1 := a1'; a2 := a2' |}.

(** ** The array [iv] as a JavaScript object

    Property keys are the numbers used to index; a key [Int k] with
    [0 <= k < 2^32 - 1] is an array index, every other key ([NaN], a negative
    integer) is an ordinary property of the array object. *)

Definition is_array_index (k : num) : bool :=
  match k with NaN => false | Int z => (0 <=? z) && (z <? 2 ^ 32 - 1) end.

(** [iv.length = 0] deletes every array-index property and no other. *)
Definition array_clear (t : gmap num num) : gmap num num :=
  filter (fun kv => is_array_index (fst kv) = false) t.

(** ** The core uniform engine *)

(** One application of the recurrence, lines 89-94 and 104-109:
    [k = Math.floor(idum/IQ); idum = IA*(idum - k*IQ) - IR*k;
     if (idum < 0) idum += IM]. *)
Definition schrageZ (x : Z) : Z :=
  let k := x / IQ in
  let x' := IA * (x - k * IQ) - IR * k in
  if x' <? 0 then x' + IM else x'.

Definition schrage (x : num) : num :=
  match x with NaN => NaN | Int z => Int (schrageZ z) end.

(** [Math.floor(iy / NDIV)] *)
Definition table_index (iy : num) : num :=
  match iy with NaN => NaN | Int z => Int (Qfloor (inject_Z z / NDIV)) end.

(** The warm-up loop [for (j = len; j >= 0; j--)], lines 87-99, entered with
    the loop counter [j]. *)
Fixpoint warmup (j : nat) (x : num) (t : gmap num num) : num * gmap num num :=
  let x := schrage x in
  let t := if Z.of_nat j <? NTAB then <[Int (Z.of_nat j) := x]> t else t in
  match j with
  | O => (x, t)
  | S j' => warmup j' x t
  end.

Definition len : nat := Z.to_nat (NTAB + 7).

(** [isNaN(start) && start < 1 ? 1 : start], line 85. *)
Definition initial_seed (start : num) : num :=
  if isNaN start && num_ltb start 1 then Int 1 else start.

(** The [if (init)] block, lines 81-102: the state after it and the local
    [iy]. *)
Definition uniform_init (start : num) (st : state) : state * option num :=
  let t := array_clear (iv st) in
  let x := initial_seed start in
  let '(x, t) := warmup len x t in
  (set_engine st x t, t !! Int 0).

(** [temp = AM*iy; return temp > RNMX ? RNMX : temp], lines 115-116. *)
Definition deviate_of (iy : option num) : float :=
  let temp := (AM * float_of_num (ToNumber iy))%float in
  if (RNMX <? temp)%float then RNMX else temp.

(** Lines 104-116, entered with the local [iy]. *)
Definition uniform_draw (iy : option num) (st : state) : float * state :=
  let x := schrage (idum st) in
  let j := table_index (ToNumber iy) in
  let iy := iv st !! j in
  let t := <[j := x]> (iv st) in
  (deviate_of iy, set_engine st x t).

(** [uniform(start, init)].  The local [iy] is initialised to 0 on every
    call (line 78). *)
Definition uniform (start : num) (init : bool) (st : state) : float * state :=
  let iy : option num := Some (Int 0) in
  let '(st, iy) := if init then uniform_init start st else (st, iy) in
  uniform_draw iy st.

(** [n] successive calls [uniform(start, false)]. *)
Fixpoint draws (n : nat) (start : num) (st : state) : list float * state :=
  match n with
  | O => (nil, st)
  | S n' =>
      let '(v, st) := uniform start false st in
      let '(vs, st) := draws n' start st in
      (v :: vs, st)
  end.

(** Two instances agree on what a continuation call can see. *)
Definition engine_agree (st1 st2 : state) : Prop :=
  idum st1 = idum st2 /\ iv st1 !! Int 0 = iv st2 !! Int 0.

(** The continuation call as the specification words it: the table index is
    taken from the carry [iy] that the previous call left. *)
Definition uniform_carried (carry : option num) (st : state) : float * state :=
  uniform_draw carry st.

(** The value of the local [iy] when a call entered with [iy] returns. *)
Definition carry_out (iy : option num) (st : state) : option num :=
  iv st !! table_index (ToNumber iy).

(** A sequence of calls [uniform(start, init)] on one instance. *)
Fixpoint run (calls : list (num * bool)) (st : state) : list float * state :=
  match calls with
  | nil => (nil, st)
  | (start, init) :: calls' =>
      let '(v, st) := uniform start init st in
      let '(vs, st) := run calls' st in
      (v :: vs, st)
  end.

(** ** Call sequences on the uniform engine *)

(** An integer start value that a JavaScript number counts exactly. *)
Definition valid_seed (x : num) : bool :=
  match x with NaN => false | Int sd => (1 <=? sd) && (sd <? 2 ^ 53) end.

(** The first call of the sequence initialises the engine. *)
Definition starts_with_init (calls : list (num * bool)) : bool :=
  match calls with (_, true) :: _ => true | _ => false end.

(** Every initialising call of the sequence passes a start value accepted
    by [ok]. *)
Definition init_seeds (ok : num -> bool) (calls : list (num * bool)) : bool :=
  forallb (fun c : num * bool => if snd c then ok (fst c) else true) calls.

(** The state space of the generator from [lo] on, for the seed and for
    slot 0 of the table. *)
Definition engine_in (lo : Z) (st : state) : Prop :=
  exists x y, idum st = Int x /\ lo <= x < IM
              /\ iv st !! Int 0 = Some (Int y) /\ lo <= y < IM.

(** A rounded binary64 result that is not NaN and carries the sign [sx]. *)
Definition has_sign (sx : bool) (r : spec_float) : Prop :=
  match r with
  | S754_zero t | S754_infinity t | S754_finite t _ _ => t = sx
  | S754_nan => False
  end.

(** ** The distribution transforms

    [Math.log] is left to the implementation by the language standard; the
    transforms are embedded over an arbitrary [Math_log].  [Math.sqrt] is the
    correctly rounded binary64 square root.  Every [while] loop takes a bound
    on its number of iterations and yields [None] when the bound is hit. *)

Section Transforms.

Variable Math_log : float -> float.

(** [while (tmp == 0.0) tmp = this.uniform(start, init)], lines 132-134. *)
Fixpoint exponential_loop (fuel : nat) (start : num) (init : bool)
    (tmp : float) (st : state) : option (float * state) :=
  if (tmp =? 0.0)%float then
    match fuel with
    | O => None
    | S fuel' =>
        let '(tmp, st) := uniform start init st in
        exponential_loop fuel' start init tmp st
    end
  else Some (tmp, st).

Definition exponential (fuel : nat) (start : num) (init : bool) (st : state)
    : option (float * state) :=
  match exponential_loop fuel start init 0.0%float st with
  | None => None
  | Some (tmp, st) => Some ((- Math_log tmp)%float, st)
  end.

(** The [if (init)] block of [normal] (lines 161-162) and of [logistic]
    (lines 254-255), which are the same two statements. *)
Definition adopt_mean_sd (mu sig : float) (st : state) : state :=
  set_u_s st
    (if isNaN_f mu || (mu <? 0)%float then 0.0%float else mu)
    (if isNaN_f sig || (0 <? sig)%float then sig else 1.0%float).

(** [while (rsq >= 1.0 || rsq === 0.0)], lines 167-172. *)
Fixpoint normal_loop (fuel : nat) (start : num) (init : bool)
    (v1 v2 rsq : float) (st : state) : option (float * float * float * state) :=
  if (1.0 <=? rsq)%float || (rsq =? 0.0)%float then
    match fuel with
    | O => None
    | S fuel' =>
        let '(x1, st) := uniform start init st in
        let v1 := (2.0 * x1 - 1.0)%float in
        let '(x2, st) := uniform start init st in
        let v2 := (2.0 * x2 - 1.0)%float in
        let rsq := (v1 * v1 + v2 * v2)%float in
        normal_loop fuel' start init v1 v2 rsq st
    end
  else Some (v1, v2, rsq, st).

(** The cache test [this.normVal === 0.0], line 165. *)
Definition cache_empty (st : state) : bool := (normVal st =? 0.0)%float.

Definition normal (fuel : nat) (start : num) (mu sig : float) (init : bool)
    (st : state) : option (float * state) :=
  let st := if init then adopt_mean_sd mu sig st else st in
  if cache_empty st then
    (* [v1] and [v2] are declared without a value *)
    match normal_loop fuel start init nan nan 0.0%float st with
    | None => None
    | Some (v1, v2, rsq, st) =>
        let fac := PrimFloat.sqrt (-2.0 * Math_log rsq / rsq)%float in
        let st := set_normVal st (v1 * fac)%float in
        Some ((u st + s st * v2 * fac)%float, st)
    end
  else
    let fac := normVal st in
    let st := set_normVal st 0.0%float in
    Some ((u st + s st * fac)%float, st).

(** [if (start)]: a number is truthy unless it is 0 or NaN. *)
Definition truthy (x : num) : bool :=
  match x with NaN => false | Int z => negb (z =? 0) end.

(** The [if (start)] block of [gamma], lines 203-214. *)
Definition gamma_params (alpha beta : float) (st : state) : state :=
  let a := if isNaN_f alpha || (alpha <=? 0.0)%float then 1.0%float else alpha in
  let a := if (a <? 1.0)%float then (a + 1.0)%float else a in
  let b := if isNaN_f beta || (beta <? 0.0001)%float then 0.5%float else beta in
  let a1 := (a - 1.0 / 3.0)%float in
  let a2 := (1.0 / PrimFloat.sqrt (9.0 * a1))%float in
  set_gamma st a b a1 a2.

(** [while (v <= 0.0) { x = this.uniform(start, init); v = 1.0 + this.a2*x }],
    lines 223-227. *)
Fixpoint gamma_redraw (fuel : nat) (start : num) (init : bool)
    (v x : float) (st : state) : option (float * float * state) :=
  if (v <=? 0.0)%float then
    match fuel with
    | O => None
    | S fuel' =>
        let '(x, st) := uniform start init st in
        let v := (1.0 + a2 st * x)%float in
        gamma_redraw fuel' start init v x st
    end
  else Some (v, x, st).

(** The condition of the outer loop, line 221. *)
Definition gamma_continue (st : state) (u v xSQ : float) : bool :=
  (1.0 - xSQ * xSQ <? u)%float
  && (0.5 * xSQ + a1 st * (1.0 - v + Math_log v) <? Math_log u)%float.

(** The body of the outer loop, lines 223-231, on the locals [u], [v], [x],
    [xSQ]. *)
Definition gamma_body (fuel : nat) (start : num) (init : bool)
    (l : float * float * float * float) (st : state)
    : option (float * float * float * float * state) :=
  let '(u, v, x, xSQ) := l in
  match gamma_redraw fuel start init v x st with
  | None => None
  | Some (v, x, st) =>
      let v := (v * v * v)%float in
      let '(u, st) := uniform start init st in
      let xSQ := (x * x)%float in
      Some (u, v, x, xSQ, st)
  end.

Fixpoint gamma_loop (fuel inner : nat) (start : num) (init : bool)
    (l : float * float * float * float) (st : state)
    : option (float * float * float * float * state) :=
  let '(u, v, x, xSQ) := l in
  if gamma_continue st u v xSQ then
    match fuel with
    | O => None
    | S fuel' =>
        match gamma_body inner start init l st with
        | None => None
        | Some (l, st) => gamma_loop fuel' inner start init l st
        end
    end
  else Some (l, st).

Definition gamma (fuel inner : nat) (start : num) (alpha beta : float)
    (init : bool) (st : state) : option (float * state) :=
  let st := if truthy start then gamma_params alpha beta st else st in
  match gamma_loop fuel inner start init
          (10.0%float, 0.0%float, 0.0%float, 0.0%float) st with
  | None => None
  | Some (_, v, _, _, st) => Some ((a1 st * v / b st)%float, st)
  end.

(** [while (v*(1.0-v) == 0.0) v = this.uniform(start, init)], lines 259-261. *)
Fixpoint logistic_loop (fuel : nat) (start : num) (init : bool)
    (v : float) (st : state) : option (float * state) :=
  if (v * (1.0 - v) =? 0.0)%float then
    match fuel with
    | O => None
    | S fuel' =>
        let '(v, st) := uniform start init st in
        logistic_loop fuel' start init v st
    end
  else Some (v, st).

Definition logistic (fuel : nat) (start : num) (mu sig : float) (init : bool)
    (st : state) : option (float * state) :=
  let st := if init then adopt_mean_sd mu sig st else st in
  match logistic_loop fuel start init 0.0%float st with
  | None => None
  | Some (v, st) =>
      Some ((u st + 0.551328895421792050 * s st * Math_log (v / (1.0 - v)))%float, st)
  end.

End Transforms.

(** The tangent of the logarithm at 1, to instantiate [Math_log] when a
    statement is evaluated on a concrete input. *)
Definition tangent_log (x : float) : float := (x - 1.0)%float.

(** The deviate and the state that a transform call returned; the defaults
    stand for a call that hit its iteration bound. *)
Definition deviate_after (r : option (float * state)) : float :=
  match r with Some (v, _) => v | None => nan end.

Definition state_after (r : option (float * state)) : state :=
  match r with Some (_, st) => st | None => constructor end.

(** ** Start values of either sign, stalled engines *)

(** An integer start value of either sign that a JavaScript number counts
    exactly. *)
Definition safe_seed (x : num) : bool :=
  match x with NaN => false | Int sd => (- 2 ^ 53 <? sd) && (sd <? 2 ^ 53) end.

(** A safe start value that is not a multiple of the modulus [IM]. *)
Definition live_seed (x : num) : bool :=
  match x with NaN => false | Int sd => safe_seed x && negb (sd mod IM =? 0) end.

(** A safe start value that is a multiple of the modulus [IM], 0 included. *)
Definition dead_seed (x : num) : bool :=
  match x with NaN => false | Int sd => safe_seed x && (sd mod IM =? 0) end.

(** The seed and slot 0 of the table are both 0. *)
Definition stalled (st : state) : Prop :=
  idum st = Int 0 /\ iv st !! Int 0 = Some (Int 0).

(** The property ["NaN"] of the array object is absent or holds NaN. *)
Definition nan_slot_clean (st : state) : Prop :=
  iv st !! NaN = None \/ iv st !! NaN = Some NaN.

(** A call [uniform(start, init)] on [st] that re-initialises with a
    multiple of [IM], or continues a stalled engine. *)
Definition zero_source (start : num) (init : bool) (st : state) : Prop :=
  if init then dead_seed start = true else stalled st.

(** The loop test of [normal], line 167, on a value of [rsq]. *)
Definition normal_rejects (rsq : float) : bool :=
  (1.0 <=? rsq)%float || (rsq =? 0.0)%float.

(** The loop test of [logistic], line 259, on a value of [v]. *)
Definition logistic_rejects (v : float) : bool :=
  (v * (1.0 - v) =? 0.0)%float.

(** ** Consecutive calls of [normal] *)

(** The seed and slot 0 of the table are inside the state space, 0
    excluded. *)
Definition live_engine (st : state) : bool :=
  match idum st, iv st !! Int 0 with
  | Int x, Some (Int y) => (1 <=? x) && (x <? IM) && (1 <=? y) && (y <? IM)
  | _, _ => false
  end.

(** What the calls [uniform(start, init)] of a transform draw from: a start
    value that is not a multiple of [IM], or a live engine. *)
Definition live_source (start : num) (init : bool) (st : state) : bool :=
  if init then live_seed start else live_engine st.

(** One pass of the body of the rejection loop of [normal], lines 169-171:
    the locals [v1], [v2], [rsq] and the state after it. *)
Definition draw_pair (start : num) (init : bool) (st : state)
    : float * float * float * state :=
  let '(x1, st) := uniform start init st in
  let v1 := (2.0 * x1 - 1.0)%float in
  let '(x2, st) := uniform start init st in
  let v2 := (2.0 * x2 - 1.0)%float in
  (v1, v2, (v1 * v1 + v2 * v2)%float, st).

(** The locals and the state after [k] passes. *)
Fixpoint passes (k : nat) (start : num) (init : bool) (st : state)
    : float * float * float * state :=
  match k with
  | O => (nan, nan, 0.0%float, st)
  | S k' => draw_pair start init (snd (passes k' start init st))
  end.

(** The [k]-th pass is the first whose [rsq] ends the loop. *)
Definition first_accepted (k : nat) (start : num) (init : bool) (st : state) : bool :=
  negb (normal_rejects (snd (fst (passes k start init st))))
  && forallb (fun j => normal_rejects (snd (fst (passes j start init st)))) (seq 0 k).

(** The one fact about [Math.log] that the cache needs: it is negative
    between 0 and 1. *)
Definition log_negative (Math_log : float -> float) : Prop :=
  forall q, (0 <? q)%float = true -> (q <? 1)%float = true ->
            (Math_log q <? 0)%float = true.

(** ** The range in which the integer embedding is exact *)

(** NaN, or an integer of magnitude below 2^53: on these the recurrence of
    the source, which computes in binary64, does not round. *)
Definition exact_num (x : num) : bool :=
  match x with NaN => true | Int z => (- 2 ^ 53 <? z) && (z <? 2 ^ 53) end.

(** The seed and what slot 0 of the table holds are in that range. *)
Definition exact_engine (st : state) : bool :=
  exact_num (idum st) && exact_num (ToNumber (iv st !! Int 0)).

(** ** The uniform engine on binary64

    The same lines of [uniform], with [idum] and the entries of [iv] as
    binary64 values and every operation rounded as the source rounds it.
    The array object is a list of bindings, the newest first. *)

(** [Math.floor].  A binary64 value with a non-negative exponent is an
    integer; below that the magnitude is less than 2^53. *)
Definition Math_floor (x : float) : float :=
  match Prim2SF x with
  | S754_finite sx m e =>
      if 0 <=? e then x else float_of_Z (cond_Zopp sx (Zpos m) / 2 ^ (- e))
  | _ => x
  end.

Record engine64 : Type := mkEngine64 {
  idum64 : float;
  iv64 : list (float * float)
}.

Definition constructor64 : engine64 := {| idum64 := 0%float; iv64 := nil |}.

(** Two numbers name the same property when they have the same string
    form: equal numbers (0 and -0 are both ["0"]), or NaN twice. *)
Definition same_key (j k : float) : bool :=
  (j =? k)%float || (isNaN_f j && isNaN_f k).

(** [iv[j]]; [None] is [undefined]. *)
Fixpoint get64 (t : list (float * float)) (j : float) : option float :=
  match t with
  | nil => None
  | (k, v) :: t' => if same_key j k then Some v else get64 t' j
  end.

(** [iv[j] = v] *)
Definition put64 (t : list (float * float)) (j v : float) : list (float * float) :=
  (j, v) :: t.

(** An array index is an integer from 0 to 2^32 - 2. *)
Definition is_array_index64 (j : float) : bool :=
  (0 <=? j)%float && (j <? 4294967295)%float && (Math_floor j =? j)%float.

(** [iv.length = 0] *)
Definition array_clear64 (t : list (float * float)) : list (float * float) :=
  List.filter (fun kv => negb (is_array_index64 (fst kv))) t.

(** Lines 89-94 and 104-109. *)
Definition schrage64 (x : float) : float :=
  let k := Math_floor (x / float_of_Z IQ) in
  let x' := (float_of_Z IA * (x - k * float_of_Z IQ) - float_of_Z IR * k)%float in
  if (x' <? 0)%float then (x' + float_of_Z IM)%float else x'.

(** [NDIV = 1 + (IM - 1)/NTAB], as the source computes it. *)
Definition NDIV64 : float := (1 + (float_of_Z IM - 1) / float_of_Z NTAB)%float.

(** [Math.floor(iy / NDIV)], line 111; [undefined] counts as NaN. *)
Definition table_index64 (iy : option float) : float :=
  Math_floor (match iy with None => nan | Some y => y end / NDIV64).

(** Lines 87-99, entered with the loop counter [j]. *)
Fixpoint warmup64 (j : nat) (x : float) (t : list (float * float))
    : float * list (float * float) :=
  let x := schrage64 x in
  let t := if Z.of_nat j <? NTAB then put64 t (float_of_Z (Z.of_nat j)) x else t in
  match j with
  | O => (x, t)
  | S j' => warmup64 j' x t
  end.

(** Line 85. *)
Definition initial_seed64 (start : float) : float :=
  if isNaN_f start && (start <? 1)%float then 1%float else start.

(** Lines 81-102. *)
Definition uniform_init64 (start : float) (en : engine64) : engine64 * option float :=
  let t := array_clear64 (iv64 en) in
  let x := initial_seed64 start in
  let '(x, t) := warmup64 len x t in
  ({| idum64 := x; iv64 := t |}, get64 t 0%float).

(** Lines 115-116. *)
Definition deviate64 (iy : option float) : float :=
  let temp := (AM * match iy with None => nan | Some y => y end)%float in
  if (RNMX <? temp)%float then RNMX else temp.

(** Lines 104-116. *)
Definition uniform_draw64 (iy : option float) (en : engine64) : float * engine64 :=
  let x := schrage64 (idum64 en) in
  let j := table_index64 iy in
  let iy := get64 (iv64 en) j in
  let t := put64 (iv64 en) j x in
  (deviate64 iy, {| idum64 := x; iv64 := t |}).

(** [uniform(start, init)] on binary64. *)
Definition uniform64 (start : float) (init : bool) (en : engine64) : float * engine64 :=
  let iy : option float := Some 0%float in
  let '(en, iy) := if init then uniform_init64 start en else (en, iy) in
  uniform_draw64 iy en.

(** * Properties of the recurrence *)

Section Recurrence.

(** [IM = IA*IQ + IR]: Schrage's factorisation. *)
Lemma schrage_factorisation : IM = IA * IQ + IR.
Proof. reflexivity. Qed.

(** The recurrence multiplies by [IA] modulo [IM], whatever its argument. *)
Lemma schrageZ_mod (x : Z) : schrageZ x mod IM = (IA * x) mod IM.
Proof.
  unfold schrageZ.
  set (k := x / IQ).
  assert (E : IA * (x - k * IQ) - IR * k = IA * x + (- k) * IM)
    by (rewrite schrage_factorisation; ring).
  destruct (Z.ltb_spec (IA * (x - k * IQ) - IR * k) 0) as [_ | _]; rewrite E.
  - replace (IA * x + - k * IM + IM) with (IA * x + (1 - k) * IM) by ring.
    apply Z.mod_add. discriminate.
  - apply Z.mod_add. discriminate.
Qed.

(** [IA] is invertible modulo [IM], so the class of 0 is never entered from
    outside. *)
Lemma schrageZ_mod_nonzero (x : Z) : x mod IM <> 0 -> schrageZ x mod IM <> 0.
Proof.
  intros Hx Hs. apply Hx.
  rewrite schrageZ_mod in Hs.
  assert (Hinv : (1407677000 * IA) mod IM = 1) by reflexivity.
  rewrite <- (Z.mul_1_l x), <- Hinv, Z.mul_mod_idemp_l by discriminate.
  rewrite <- Z.mul_assoc, <- Z.mul_mod_idemp_r, Hs by discriminate.
  rewrite Z.mul_0_r. reflexivity.
Qed.

Lemma schrageZ_0 : schrageZ 0 = 0.
Proof. reflexivity. Qed.

(** On the state space of the generator the recurrence stays inside it. *)
Lemma schrageZ_range (x : Z) : 0 <= x < IM -> 0 <= schrageZ x < IM.
Proof.
  unfold schrageZ, IM, IA, IQ, IR. intros Hx.
  destruct (Z.ltb_spec (16807 * (x - x / 127773 * 127773) - 2836 * (x / 127773)) 0);
    Z.div_mod_to_equations; lia.
Qed.

Lemma schrageZ_range_pos (x : Z) : 1 <= x < IM -> 1 <= schrageZ x < IM.
Proof.
  intros Hx.
  assert (Hr : 0 <= schrageZ x < IM) by (apply schrageZ_range; lia).
  assert (Hn : schrageZ x mod IM <> 0).
  { apply schrageZ_mod_nonzero. rewrite Z.mod_small by lia. lia. }
  rewrite Z.mod_small in Hn by lia. lia.
Qed.

(** Start values outside the state space, up to the largest integer that
    binary64 counts exactly, are pulled into it by five applications. *)
Lemma schrageZ_bound_1 (x : Z) :
  1 <= x < 2 ^ 53 -> - 200000000000000 <= schrageZ x < IM.
Proof.
  unfold schrageZ, IM, IA, IQ, IR. intros Hx. change (2 ^ 53) with 9007199254740992 in Hx.
  destruct (Z.ltb_spec (16807 * (x - x / 127773 * 127773) - 2836 * (x / 127773)) 0);
    Z.div_mod_to_equations; lia.
Qed.

Lemma schrageZ_bound_2 (x : Z) :
  - 200000000000000 <= x < IM -> 0 <= schrageZ x <= 4500000000000.
Proof.
  unfold schrageZ, IM, IA, IQ, IR. intros Hx.
  destruct (Z.ltb_spec (16807 * (x - x / 127773 * 127773) - 2836 * (x / 127773)) 0);
    Z.div_mod_to_equations; lia.
Qed.

Lemma schrageZ_bound_3 (x : Z) :
  0 <= x <= 4500000000000 -> - 100000000000 <= schrageZ x < IM.
Proof.
  unfold schrageZ, IM, IA, IQ, IR. intros Hx.
  destruct (Z.ltb_spec (16807 * (x - x / 127773 * 127773) - 2836 * (x / 127773)) 0);
    Z.div_mod_to_equations; lia.
Qed.

Lemma schrageZ_bound_4 (x : Z) :
  - 100000000000 <= x < IM -> 0 <= schrageZ x <= 4400000000.
Proof.
  unfold schrageZ, IM, IA, IQ, IR. intros Hx.
  destruct (Z.ltb_spec (16807 * (x - x / 127773 * 127773) - 2836 * (x / 127773)) 0);
    Z.div_mod_to_equations; lia.
Qed.

Lemma schrageZ_bound_5 (x : Z) :
  0 <= x <= 4400000000 -> 0 <= schrageZ x < IM.
Proof.
  unfold schrageZ, IM, IA, IQ, IR. intros Hx.
  destruct (Z.ltb_spec (16807 * (x - x / 127773 * 127773) - 2836 * (x / 127773)) 0);
    Z.div_mod_to_equations; lia.
Qed.

Lemma schrageZ_settles (x : Z) :
  1 <= x < 2 ^ 53 -> 0 <= Nat.iter 5 schrageZ x < IM.
Proof.
  intros Hx. simpl.
  apply schrageZ_bound_5, schrageZ_bound_4, schrageZ_bound_3,
    schrageZ_bound_2, schrageZ_bound_1, Hx.
Qed.

Lemma iter_schrageZ_range (n : nat) (x : Z) :
  0 <= x < IM -> 0 <= Nat.iter n schrageZ x < IM.
Proof.
  intros Hx. induction n as [| n IH]; simpl; [exact Hx | apply schrageZ_range, IH].
Qed.

Lemma iter_schrageZ_mod_nonzero (n : nat) (x : Z) :
  x mod IM <> 0 -> Nat.iter n schrageZ x mod IM <> 0.
Proof.
  intros Hx. induction n as [| n IH]; simpl; [exact Hx | apply schrageZ_mod_nonzero, IH].
Qed.

Lemma iter_schrageZ_settled (n : nat) (x : Z) :
  1 <= x < 2 ^ 53 -> (5 <= n)%nat -> 0 <= Nat.iter n schrageZ x < IM.
Proof.
  intros Hx Hn.
  replace n with ((n - 5) + 5)%nat by lia.
  rewrite Nat.iter_add. apply iter_schrageZ_range, schrageZ_settles, Hx.
Qed.

Lemma iter_schrageZ_settled_pos (n : nat) (x : Z) :
  1 <= x < 2 ^ 53 -> x mod IM <> 0 -> (5 <= n)%nat ->
  1 <= Nat.iter n schrageZ x < IM.
Proof.
  intros Hx Hm Hn.
  pose proof (iter_schrageZ_settled n x Hx Hn) as Hr.
  pose proof (iter_schrageZ_mod_nonzero n x Hm) as Hz.
  rewrite Z.mod_small in Hz by lia. lia.
Qed.

Lemma iter_schrage_Int (n : nat) (x : Z) :
  Nat.iter n schrage (Int x) = Int (Nat.iter n schrageZ x).
Proof. induction n as [| n IH]; simpl; [reflexivity | rewrite IH; reflexivity]. Qed.

Lemma iter_schrage_NaN (n : nat) : Nat.iter n schrage NaN = NaN.
Proof. induction n as [| n IH]; simpl; [reflexivity | rewrite IH; reflexivity]. Qed.

(** [Math.floor(iy / NDIV)] on integers. *)
Lemma table_index_Z (y : Z) :
  table_index (Int y) = Int ((y * 32) / 2147483678).
Proof.
  unfold table_index, NDIV, Qdiv, Qinv, Qmult, Qfloor. simpl.
  reflexivity.
Qed.

Lemma table_index_range (y : Z) :
  0 <= y < IM -> exists j, table_index (Int y) = Int j /\ 0 <= j < NTAB.
Proof.
  intros Hy. exists ((y * 32) / 2147483678). split; [apply table_index_Z |].
  unfold IM, NTAB in *. Z.div_mod_to_equations. lia.
Qed.

Lemma table_index_0 : table_index (Int 0) = Int 0.
Proof. reflexivity. Qed.

End Recurrence.

(** * The warm-up *)

Lemma initial_seed_id (start : num) : initial_seed start = start.
Proof. destruct start; reflexivity. Qed.

Lemma array_clear_index (t : gmap num num) (k : num) :
  is_array_index k = true -> array_clear t !! k = None.
Proof.
  intros Hk. unfold array_clear. apply map_lookup_filter_None.
  right. intros x _. simpl. rewrite Hk. discriminate.
Qed.

Lemma array_clear_other (t : gmap num num) (k : num) :
  is_array_index k = false -> array_clear t !! k = t !! k.
Proof.
  intros Hk. unfold array_clear.
  destruct (t !! k) as [x |] eqn:E.
  - apply map_lookup_filter_Some. split; [exact E | exact Hk].
  - apply map_lookup_filter_None. left. exact E.
Qed.

Lemma warmup_idum (j : nat) (x : num) (t : gmap num num) :
  fst (warmup j x t) = Nat.iter (S j) schrage x.
Proof.
  revert x t. induction j as [| j IH]; intros x t.
  - reflexivity.
  - cbn [warmup]. rewrite IH. symmetry. apply (Nat.iter_succ_r (S j)).
Qed.

(** Keys that the loop does not name keep their value. *)
Lemma warmup_untouched (j : nat) (x : num) (t : gmap num num) (k : num) :
  (forall i, (i <= j)%nat -> Z.of_nat i < NTAB -> k <> Int (Z.of_nat i)) ->
  snd (warmup j x t) !! k = t !! k.
Proof.
  revert x t. induction j as [| j IH]; intros x t Hk.
  - cbn. apply lookup_insert_ne. intros E. apply (Hk 0%nat); [lia | reflexivity | auto].
  - cbn [warmup]. rewrite IH by (intros i Hi; apply Hk; lia).
    destruct (Z.ltb_spec (Z.of_nat (S j)) NTAB) as [Hlt | _]; [| reflexivity].
    apply lookup_insert_ne. intros E. apply (Hk (S j)); [lia | exact Hlt | auto].
Qed.

(** Slot [i] receives the value of the iteration whose counter is [i]. *)
Lemma warmup_filled (j : nat) (x : num) (t : gmap num num) (i : nat) :
  (i <= j)%nat -> Z.of_nat i < NTAB ->
  snd (warmup j x t) !! Int (Z.of_nat i) = Some (Nat.iter (S j - i) schrage x).
Proof.
  revert x t. induction j as [| j IH]; intros x t Hij Hi.
  - assert (i = 0%nat) by lia. subst i. cbn. apply lookup_insert_eq.
  - cbn [warmup]. destruct (Nat.eq_dec i (S j)) as [-> | Hne].
    + rewrite warmup_untouched by (intros i' Hi' _ [=]; lia).
      apply Z.ltb_lt in Hi. rewrite Hi.
      replace (S (S j) - S j)%nat with 1%nat by lia.
      apply lookup_insert_eq.
    + rewrite IH by lia.
      replace (S (S j) - i)%nat with (S (S j - i)) by lia.
      rewrite (Nat.iter_succ_r (S j - i)). reflexivity.
Qed.

Lemma len_eq : len = 39%nat.
Proof. reflexivity. Qed.

(** What the [if (init)] block leaves behind, for every start value and every
    prior state. *)
Lemma uniform_init_idum (start : num) (st : state) :
  idum (fst (uniform_init start st)) = Nat.iter 40 schrage start.
Proof.
  unfold uniform_init. rewrite initial_seed_id.
  destruct (warmup len start (array_clear (iv st))) as [x t] eqn:E.
  cbn [fst idum set_engine].
  change x with (fst (x, t)). rewrite <- E, warmup_idum. reflexivity.
Qed.

Lemma uniform_init_slot (start : num) (st : state) (i : nat) :
  (i < 32)%nat ->
  iv (fst (uniform_init start st)) !! Int (Z.of_nat i)
  = Some (Nat.iter (40 - i) schrage start).
Proof.
  intros Hi. unfold uniform_init. rewrite initial_seed_id.
  destruct (warmup len start (array_clear (iv st))) as [x t] eqn:E.
  cbn [fst iv set_engine].
  change t with (snd (x, t)). rewrite <- E, warmup_filled; rewrite ?len_eq; [| lia |].
  - reflexivity.
  - unfold NTAB. lia.
Qed.

Lemma uniform_init_rest (start : num) (st : state) (k : num) :
  (forall i, (i < 32)%nat -> k <> Int (Z.of_nat i)) ->
  iv (fst (uniform_init start st)) !! k
  = if is_array_index k then None else iv st !! k.
Proof.
  intros Hk. unfold uniform_init. rewrite initial_seed_id.
  destruct (warmup len start (array_clear (iv st))) as [x t] eqn:E.
  cbn [fst iv set_engine].
  change t with (snd (x, t)). rewrite <- E, warmup_untouched.
  - destruct (is_array_index k) eqn:Ek;
      [apply array_clear_index | apply array_clear_other]; exact Ek.
  - intros i _ Hi. apply Hk. unfold NTAB in Hi. lia.
Qed.

Lemma uniform_init_carry (start : num) (st : state) :
  snd (uniform_init start st) = Some (Nat.iter 40 schrage start).
Proof.
  unfold uniform_init. rewrite initial_seed_id.
  destruct (warmup len start (array_clear (iv st))) as [x t] eqn:E.
  cbn [snd]. change t with (snd (x, t)). rewrite <- E.
  change (Int 0) with (Int (Z.of_nat 0)).
  rewrite warmup_filled; [reflexivity | lia | reflexivity].
Qed.

Lemma uniform_init_fields (start : num) (st : state) :
  let st' := fst (uniform_init start st) in
  normVal st' = normVal st /\ u st' = u st /\ s st' = s st /\ a st' = a st
  /\ b st' = b st /\ a1 st' = a1 st /\ a2 st' = a2 st.
Proof.
  unfold uniform_init.
  destruct (warmup len (initial_seed start) (array_clear (iv st))) as [x t].
  cbn. repeat split.
Qed.

(** * The uniform engine *)

Lemma uniform_false (start : num) (st : state) :
  uniform start false st
  = (deviate_of (iv st !! Int 0),
     set_engine st (schrage (idum st)) (<[Int 0 := schrage (idum st)]> (iv st))).
Proof. reflexivity. Qed.

Lemma uniform_true (start : num) (st : state) :
  uniform start true st
  = uniform_draw (snd (uniform_init start st)) (fst (uniform_init start st)).
Proof. unfold uniform. destruct (uniform_init start st); reflexivity. Qed.

Lemma uniform_false_agree (start1 start2 : num) (st1 st2 : state) :
  engine_agree st1 st2 ->
  fst (uniform start1 false st1) = fst (uniform start2 false st2)
  /\ engine_agree (snd (uniform start1 false st1)) (snd (uniform start2 false st2)).
Proof.
  intros [Hi Ht]. rewrite !uniform_false. cbn [fst snd]. split.
  - rewrite Ht. reflexivity.
  - split; cbn [idum iv set_engine].
    + rewrite Hi. reflexivity.
    + rewrite !lookup_insert_eq, Hi. reflexivity.
Qed.

Lemma draws_agree (n : nat) (start1 start2 : num) (st1 st2 : state) :
  engine_agree st1 st2 ->
  fst (draws n start1 st1) = fst (draws n start2 st2).
Proof.
  revert st1 st2. induction n as [| n IH]; intros st1 st2 H; [reflexivity |].
  cbn [draws].
  destruct (uniform_false_agree start1 start2 st1 st2 H) as [Hv Hst].
  destruct (uniform start1 false st1) as [v1 st1'].
  destruct (uniform start2 false st2) as [v2 st2'].
  cbn [fst snd] in Hv, Hst. specialize (IH _ _ Hst).
  destruct (draws n start1 st1') as [vs1 st1''].
  destruct (draws n start2 st2') as [vs2 st2''].
  cbn [fst] in *. congruence.
Qed.

(** After initialisation with a start value that binary64 counts exactly,
    the carry selects one of the 32 freshly written slots. *)
Lemma uniform_init_first_slot (sd : Z) (st : state) :
  1 <= sd < 2 ^ 53 ->
  exists (y : Z) (j : nat),
    snd (uniform_init (Int sd) st) = Some (Int y)
    /\ 0 <= y < IM
    /\ table_index (Int y) = Int (Z.of_nat j)
    /\ (j < 32)%nat.
Proof.
  intros Hsd.
  pose proof (iter_schrageZ_settled 40 sd Hsd ltac:(lia)) as Hy.
  destruct (table_index_range _ Hy) as (j & Hj & Hjr).
  exists (Nat.iter 40 schrageZ sd), (Z.to_nat j).
  rewrite uniform_init_carry, iter_schrage_Int.
  unfold NTAB in Hjr. rewrite Z2Nat.id by lia.
  repeat split; try assumption; lia.
Qed.

Lemma uniform_true_any_state (sd : Z) (st1 st2 : state) :
  1 <= sd < 2 ^ 53 ->
  fst (uniform (Int sd) true st1) = fst (uniform (Int sd) true st2)
  /\ engine_agree (snd (uniform (Int sd) true st1)) (snd (uniform (Int sd) true st2)).
Proof.
  intros Hsd. rewrite !uniform_true.
  destruct (uniform_init_first_slot sd st1 Hsd) as (y & j & Hc1 & Hy & Hj & Hj32).
  pose proof (uniform_init_carry (Int sd) st1) as C1.
  pose proof (uniform_init_carry (Int sd) st2) as C2.
  rewrite C1 in Hc1. rewrite C1, C2, Hc1.
  unfold uniform_draw. cbn [ToNumber fst snd]. rewrite Hj.
  rewrite !uniform_init_slot by assumption.
  rewrite !uniform_init_idum. split; [reflexivity |].
  split; cbn [idum iv set_engine]; [reflexivity |].
  destruct (decide (Int (Z.of_nat j) = Int 0)) as [-> | Hne].
  - rewrite !lookup_insert_eq. reflexivity.
  - rewrite !lookup_insert_ne by exact Hne.
    rewrite !(uniform_init_slot _ _ 0) by lia. reflexivity.
Qed.

(** C1, amended: for every integer start value [1 <= sd < 2^53] (the
    integers that a JavaScript number counts exactly, on which the
    recurrence does not round), a call [uniform(sd, true)] on an
    instance in any state returns the same bits as on a freshly constructed
    instance, and the continuation calls [uniform(_, false)] after it return
    the same sequence, element for element. *)
Theorem same_seed_same_draws (sd : Z) (st : state) (n : nat) (start1 start2 : num) :
  1 <= sd < 2 ^ 53 ->
  fst (uniform (Int sd) true st) = fst (uniform (Int sd) true constructor)
  /\ fst (draws n start1 (snd (uniform (Int sd) true st)))
     = fst (draws n start2 (snd (uniform (Int sd) true constructor))).
Proof.
  intros Hsd.
  destruct (uniform_true_any_state sd st constructor Hsd) as [Hv Hst].
  split; [exact Hv | apply draws_agree, Hst].
Qed.

Lemma same_seed_same_draws_witness :
  fst (uniform (Int 10001) true (snd (uniform (Int 7) true constructor)))
  = fst (uniform (Int 10001) true constructor)
  /\ fst (draws 3 (Int 10001)
            (snd (uniform (Int 10001) true (snd (uniform (Int 7) true constructor)))))
     = fst (draws 3 (Int 10001) (snd (uniform (Int 10001) true constructor))).
Proof.
  apply (same_seed_same_draws 10001 (snd (uniform (Int 7) true constructor)) 3).
  split; [lia | reflexivity].
Defined.

(** C5: the guard of line 85 never substitutes anything, since no number is
    both NaN and below 1.  A start value of 0 stays in place, the recurrence
    is stuck at 0 and the call returns 0; a negative start value and NaN stay
    in place as well, and NaN makes the call return NaN. *)
Theorem degenerate_seed_kept :
  (forall start, initial_seed start = start)
  /\ idum (fst (uniform_init (Int 0) constructor)) = Int 0
  /\ fst (uniform (Int 0) true constructor) = 0%float
  /\ fst (uniform (Int 0) true constructor) <> fst (uniform (Int 1) true constructor)
  /\ initial_seed (Int (-5)) = Int (-5)
  /\ initial_seed NaN = NaN
  /\ isNaN_f (fst (uniform NaN true constructor)) = true.
Proof.
  split; [apply initial_seed_id |].
  repeat split; try (vm_compute; reflexivity).
  vm_compute. intros H. apply (f_equal Prim2SF) in H. vm_compute in H. discriminate.
Qed.

(** C10: on a freshly constructed instance the table is empty, a call
    [uniform(start, false)] reads slot 0 of it, which is [undefined], and
    returns NaN. *)
Theorem fresh_uniform_without_init_is_nan (start : num) :
  iv constructor !! table_index (Int 0) = None
  /\ fst (uniform start false constructor) = nan
  /\ isNaN_f (fst (uniform start false constructor)) = true.
Proof. repeat split; vm_compute; reflexivity. Qed.

(** C2: a continuation call does advance the seed once, overwrite the slot
    it read with the new seed and return [min(AM*iy, RNMX)], but the slot is
    always slot 0: the local [iy] is reset to 0 on entry, so the carry of the
    previous call is lost.  After [uniform(1, true)] the carry is 893351816,
    which selects slot 13; the call [uniform(1, false)] reads slot 0 and
    returns 0.3653..., where the carried index would give 0.0919... *)
Theorem continuation_ignores_carry :
  (forall start st,
     uniform start false st
     = (deviate_of (iv st !! Int 0),
        set_engine st (schrage (idum st)) (<[Int 0 := schrage (idum st)]> (iv st))))
  /\ (let st0 := fst (uniform_init (Int 1) constructor) in
      let iy0 := snd (uniform_init (Int 1) constructor) in
      let carry := carry_out iy0 st0 in
      let st1 := snd (uniform (Int 1) true constructor) in
      carry = Some (Int 893351816)
      /\ table_index (ToNumber carry) = Int 13
      /\ fst (uniform (Int 1) false st1) = 0.36533867072562626%float
      /\ fst (uniform_carried carry st1) = 0.091964890757559287%float).
Proof.
  split; [intros; apply uniform_false |].
  repeat split; vm_compute; reflexivity.
Qed.

(** * Binary64 facts *)

Lemma shr_1_div2 (mrs : shr_record) :
  0 <= shr_m mrs -> shr_m (shr_1 mrs) = shr_m mrs / 2.
Proof.
  destruct mrs as [m r t]. cbn [shr_m]. intros Hm.
  rewrite <- Z.div2_div.
  destruct m as [| [p | p |] | p]; try reflexivity; lia.
Qed.

Lemma iter_shr_1_div (p : positive) (mrs : shr_record) :
  0 <= shr_m mrs ->
  shr_m (SpecFloat.iter_pos shr_1 p mrs) = shr_m mrs / 2 ^ Zpos p.
Proof.
  revert mrs. induction p as [p IH | p IH |]; intros mrs Hm; cbn [SpecFloat.iter_pos].
  - assert (H1 : 0 <= shr_m (shr_1 mrs))
      by (rewrite shr_1_div2 by exact Hm; apply Z.div_pos; lia).
    assert (H2 : 0 <= shr_m (SpecFloat.iter_pos shr_1 p (shr_1 mrs)))
      by (rewrite IH by exact H1; apply Z.div_pos; lia).
    rewrite IH by exact H2. rewrite IH by exact H1. rewrite shr_1_div2 by exact Hm.
    rewrite !Z.div_div by lia.
    replace (Z.pos p~1) with (1 + Z.pos p + Z.pos p) by lia.
    rewrite !Z.pow_add_r by lia. change (2 ^ 1) with 2.
    f_equal. ring.
  - assert (H2 : 0 <= shr_m (SpecFloat.iter_pos shr_1 p mrs))
      by (rewrite IH by exact Hm; apply Z.div_pos; lia).
    rewrite IH by exact H2. rewrite IH by exact Hm.
    rewrite !Z.div_div by lia.
    replace (Z.pos p~0) with (Z.pos p + Z.pos p) by lia.
    rewrite !Z.pow_add_r by lia. reflexivity.
  - rewrite shr_1_div2 by exact Hm. reflexivity.
Qed.

Lemma shr_nonneg (mrs : shr_record) (e n : Z) :
  0 <= shr_m mrs -> 0 <= shr_m (fst (shr mrs e n)).
Proof.
  intros Hm. destruct n as [| p | p]; cbn [shr fst]; try exact Hm.
  rewrite iter_shr_1_div by exact Hm. apply Z.div_pos; lia.
Qed.

Lemma shr_pos (mrs : shr_record) (e n : Z) :
  0 < shr_m mrs -> 2 ^ n <= shr_m mrs -> 0 < shr_m (fst (shr mrs e n)).
Proof.
  intros Hm Hn. destruct n as [| p | p]; cbn [shr fst]; try exact Hm.
  rewrite iter_shr_1_div by lia. apply Z.div_str_pos. lia.
Qed.

Lemma shr_exp (mrs : shr_record) (e n : Z) :
  snd (shr mrs e n) = e + Z.max n 0.
Proof. destruct n; cbn [shr snd]; lia. Qed.

Lemma shr_record_of_loc_m (m : Z) (l : location) :
  shr_m (shr_record_of_loc m l) = m.
Proof. destruct l as [| []]; reflexivity. Qed.

Lemma round_nearest_even_ge (m : Z) (l : location) :
  m <= round_nearest_even m l.
Proof.
  destruct l as [| []]; cbn [round_nearest_even]; try lia.
  destruct (Z.even m); lia.
Qed.

Lemma digits2_pos_lower (m : positive) :
  2 ^ (Zpos (digits2_pos m) - 1) <= Zpos m.
Proof.
  induction m as [m IH | m IH |]; cbn [digits2_pos]; [| | cbn; lia];
    rewrite Pos2Z.inj_succ;
    replace (Z.succ (Z.pos (digits2_pos m)) - 1) with (1 + (Z.pos (digits2_pos m) - 1)) by lia;
    rewrite Z.pow_add_r by lia; lia.
Qed.

Lemma digits2_pos_upper (m : positive) :
  Zpos m < 2 ^ Zpos (digits2_pos m).
Proof.
  induction m as [m IH | m IH |]; cbn [digits2_pos]; [| | cbn; lia];
    rewrite Pos2Z.inj_succ, Z.pow_succ_r by lia; lia.
Qed.

Lemma Zdigits2_lower (m : Z) : 0 < m -> 2 ^ (Zdigits2 m - 1) <= m.
Proof. destruct m; try lia. intros _. apply digits2_pos_lower. Qed.

Lemma digits2_pos_mul (a b : positive) :
  Zpos (digits2_pos a) + Zpos (digits2_pos b) - 1 <= Zpos (digits2_pos (a * b)).
Proof.
  pose proof (digits2_pos_lower a) as Ha.
  pose proof (digits2_pos_lower b) as Hb.
  pose proof (digits2_pos_upper (a * b)) as Hab.
  assert (H : 2 ^ (Zpos (digits2_pos a) - 1 + (Zpos (digits2_pos b) - 1)) <= Zpos (a * b)).
  { rewrite Z.pow_add_r by lia. rewrite Pos2Z.inj_mul.
    apply Z.mul_le_mono_nonneg; try assumption; apply Z.pow_nonneg; lia. }
  assert (L : Zpos (digits2_pos a) - 1 + (Zpos (digits2_pos b) - 1) < Zpos (digits2_pos (a * b))).
  { apply (Z.pow_lt_mono_r_iff 2); lia. }
  lia.
Qed.

(** A positive mantissa never rounds to NaN or to the other sign. *)
Lemma binary_round_aux_sign (sx : bool) (m : positive) (e : Z) (l : location) :
  has_sign sx (binary_round_aux prec emax sx (Zpos m) e l).
Proof.
  unfold binary_round_aux, shr_fexp.
  set (n1 := fexp prec emax (Zdigits2 (Z.pos m) + e) - e).
  pose proof (shr_nonneg (shr_record_of_loc (Zpos m) l) e n1) as H1.
  rewrite shr_record_of_loc_m in H1. specialize (H1 ltac:(lia)).
  destruct (shr (shr_record_of_loc (Z.pos m) l) e n1) as [mrs' e'].
  cbn [fst] in H1.
  set (m2 := round_nearest_even (shr_m mrs') (loc_of_shr_record mrs')).
  assert (H2 : 0 <= m2)
    by (pose proof (round_nearest_even_ge (shr_m mrs') (loc_of_shr_record mrs')); lia).
  set (n2 := fexp prec emax (Zdigits2 m2 + e') - e').
  pose proof (shr_nonneg (shr_record_of_loc m2 loc_Exact) e' n2) as H3.
  rewrite shr_record_of_loc_m in H3. specialize (H3 H2).
  destruct (shr (shr_record_of_loc m2 loc_Exact) e' n2) as [mrs'' e''].
  cbn [fst] in H3.
  destruct (shr_m mrs'') as [| p | p]; [reflexivity | | lia].
  destruct (e'' <=? emax - prec); reflexivity.
Qed.

(** A mantissa above the subnormal threshold does not round to zero. *)
Lemma binary_round_aux_nonzero (sx : bool) (m : positive) (e : Z) (l : location) :
  SpecFloat.emin prec emax < Zpos (digits2_pos m) + e ->
  forall t, binary_round_aux prec emax sx (Zpos m) e l <> S754_zero t.
Proof.
  intros Hd t. unfold binary_round_aux, shr_fexp.
  set (n1 := fexp prec emax (Zdigits2 (Z.pos m) + e) - e).
  pose proof (shr_pos (shr_record_of_loc (Zpos m) l) e n1) as H1.
  pose proof (shr_exp (shr_record_of_loc (Zpos m) l) e n1) as E1.
  rewrite shr_record_of_loc_m in H1.
  assert (Hn1 : 2 ^ n1 <= Zpos m).
  { pose proof (digits2_pos_lower m) as Hl.
    destruct (Z.le_gt_cases n1 0) as [Hle | Hgt].
    - destruct (Z.eq_dec n1 0) as [-> | Hne]; [cbn; lia |].
      rewrite Z.pow_neg_r by lia. lia.
    - transitivity (2 ^ (Zpos (digits2_pos m) - 1)); [| exact Hl].
      apply Z.pow_le_mono_r; [lia |].
      subst n1. unfold fexp. cbn [Zdigits2].
      change prec with 53 in *. lia. }
  specialize (H1 ltac:(lia) Hn1).
  destruct (shr (shr_record_of_loc (Z.pos m) l) e n1) as [mrs' e'].
  cbn [fst snd] in H1, E1.
  set (m2 := round_nearest_even (shr_m mrs') (loc_of_shr_record mrs')).
  assert (H2 : 0 < m2)
    by (pose proof (round_nearest_even_ge (shr_m mrs') (loc_of_shr_record mrs')); lia).
  set (n2 := fexp prec emax (Zdigits2 m2 + e') - e').
  pose proof (shr_pos (shr_record_of_loc m2 loc_Exact) e' n2) as H3.
  rewrite shr_record_of_loc_m in H3.
  assert (Hn2 : 2 ^ n2 <= m2).
  { pose proof (Zdigits2_lower m2 H2) as Hl.
    assert (Hd2 : 1 <= Zdigits2 m2) by (destruct m2; cbn; lia).
    destruct (Z.le_gt_cases n2 0) as [Hle | Hgt].
    - destruct (Z.eq_dec n2 0) as [-> | Hne]; [cbn; lia |].
      rewrite Z.pow_neg_r by lia. lia.
    - transitivity (2 ^ (Zdigits2 m2 - 1)); [| exact Hl].
      apply Z.pow_le_mono_r; [lia |].
      subst n2 n1. unfold fexp in *. cbn [Zdigits2] in *.
      change prec with 53 in *. lia. }
  specialize (H3 H2 Hn2).
  destruct (shr (shr_record_of_loc m2 loc_Exact) e' n2) as [mrs'' e''].
  cbn [fst] in H3.
  destruct (shr_m mrs'') as [| p | p]; [lia | | lia].
  destruct (e'' <=? emax - prec); discriminate.
Qed.

Lemma digits2_pos_iter_xO (p k : positive) :
  digits2_pos (Pos.iter xO p k) = (digits2_pos p + k)%positive.
Proof.
  induction k as [| k IH] using Pos.peano_ind.
  - cbn. lia.
  - rewrite Pos.iter_succ. cbn [digits2_pos]. rewrite IH. lia.
Qed.

Lemma shl_align_digits (p : positive) (e e' : Z) :
  e' <= e ->
  Zpos (digits2_pos (fst (shl_align p e e'))) + snd (shl_align p e e')
  = Zpos (digits2_pos p) + e
  /\ snd (shl_align p e e') = e'.
Proof.
  intros He. unfold shl_align.
  destruct (e' - e) as [| k | k] eqn:E; cbn [fst snd]; try lia.
  rewrite digits2_pos_iter_xO. lia.
Qed.

(** A canonical mantissa is left alone by rounding. *)
Lemma binary_round_aux_canonical (sx : bool) (m : positive) (e : Z) :
  fexp prec emax (Zpos (digits2_pos m) + e) = e ->
  e <= emax - prec ->
  binary_round_aux prec emax sx (Zpos m) e loc_Exact = S754_finite sx m e.
Proof.
  intros Hc He. unfold binary_round_aux, shr_fexp. cbn [Zdigits2].
  rewrite Hc, Z.sub_diag. cbn [shr shr_record_of_loc shr_m loc_of_shr_record round_nearest_even Zdigits2].
  rewrite Hc, Z.sub_diag. cbn [shr shr_record_of_loc shr_m].
  apply Z.leb_le in He. rewrite He. reflexivity.
Qed.

(** The binary64 value of a positive integer below 2^53. *)
Lemma float_of_Z_finite (y : Z) :
  1 <= y < 2 ^ 53 ->
  exists m e, Prim2SF (float_of_Z y) = S754_finite false m e
              /\ 1 <= Zpos (digits2_pos m) + e.
Proof.
  intros Hy. unfold float_of_Z.
  destruct (Z.ltb_spec y 0) as [? | _]; [lia |].
  rewrite FloatAxioms.of_uint63_spec, Uint63.of_Z_spec.
  rewrite Z.mod_small by (change Uint63Axioms.wB with 9223372036854775808;
    change (2 ^ 53) with 9007199254740992 in Hy; lia).
  destruct y as [| p | p]; try lia.
  cbn [binary_normalize]. unfold binary_round.
  pose proof (digits2_pos_lower p) as Hl.
  assert (Hd : Zpos (digits2_pos p) <= 53).
  { destruct (Z.le_gt_cases (Zpos (digits2_pos p)) 53) as [H | H]; [exact H | exfalso].
    assert (2 ^ 53 <= 2 ^ (Zpos (digits2_pos p) - 1)) by (apply Z.pow_le_mono_r; lia).
    lia. }
  assert (Hf : fexp prec emax (Zpos (digits2_pos p) + 0) = Zpos (digits2_pos p) - 53).
  { unfold fexp, SpecFloat.emin. change prec with 53. change emax with 1024. lia. }
  rewrite Hf.
  destruct (shl_align_digits p 0 (Zpos (digits2_pos p) - 53) ltac:(lia)) as [Hdig Hez].
  destruct (shl_align p 0 (Zpos (digits2_pos p) - 53)) as [mz ez].
  cbn [fst snd] in Hdig, Hez.
  exists mz, ez. split; [| lia].
  apply binary_round_aux_canonical.
  - rewrite Hdig, Hf. lia.
  - change prec with 53. change emax with 1024. lia.
Qed.

Lemma Prim2SF_AM : Prim2SF AM = S754_finite false 4503599629467648 (-83).
Proof. vm_compute. reflexivity. Qed.

Lemma Prim2SF_RNMX : Prim2SF RNMX = S754_finite false 9007198173877081 (-53).
Proof. vm_compute. reflexivity. Qed.

Lemma Prim2SF_one : Prim2SF 1%float = S754_finite false 4503599627370496 (-52).
Proof. vm_compute. reflexivity. Qed.

Lemma Prim2SF_zero : Prim2SF 0%float = S754_zero false.
Proof. vm_compute. reflexivity. Qed.

(** [AM * iy] for a table entry [iy]: never NaN, never negative, and not
    zero unless [iy] is. *)
Lemma AM_mul_sign (y : Z) :
  0 <= y < 2 ^ 53 -> has_sign false (Prim2SF (AM * float_of_Z y)%float).
Proof.
  intros Hy. rewrite FloatAxioms.mul_spec, Prim2SF_AM.
  destruct (Z.eq_dec y 0) as [-> | Hne].
  - vm_compute. reflexivity.
  - destruct (float_of_Z_finite y ltac:(lia)) as (m & e & -> & _).
    unfold SF64mul, SFmul. cbn [xorb]. apply binary_round_aux_sign.
Qed.

Lemma AM_mul_nonzero (y : Z) (t : bool) :
  1 <= y < 2 ^ 53 -> Prim2SF (AM * float_of_Z y)%float <> S754_zero t.
Proof.
  intros Hy. rewrite FloatAxioms.mul_spec, Prim2SF_AM.
  destruct (float_of_Z_finite y Hy) as (m & e & -> & Hd).
  unfold SF64mul, SFmul. apply binary_round_aux_nonzero.
  pose proof (digits2_pos_mul 4503599629467648 m) as Hm.
  change (Zpos (digits2_pos 4503599629467648)) with 53 in Hm.
  unfold SpecFloat.emin. change prec with 53. change emax with 1024. lia.
Qed.

Lemma sign_leb_zero (r : spec_float) :
  has_sign false r -> SFleb (S754_zero false) r = true.
Proof. destruct r as [t | t | | t m e]; cbn; intros H; subst; try reflexivity; contradiction. Qed.

Lemma sign_ltb_zero (r : spec_float) :
  has_sign false r -> (forall t, r <> S754_zero t) -> SFltb (S754_zero false) r = true.
Proof.
  destruct r as [t | t | | t m e]; cbn; intros H Hz; subst; try reflexivity;
    [exfalso; apply (Hz false); reflexivity | contradiction].
Qed.

Lemma below_RNMX_below_one (r : spec_float) :
  has_sign false r ->
  SFltb (S754_finite false 9007198173877081 (-53)) r = false ->
  SFltb r (S754_finite false 4503599627370496 (-52)) = true.
Proof.
  destruct r as [t | t | | t m e]; unfold has_sign; intros H Hc;
    [reflexivity | subst t; discriminate Hc | contradiction |].
  subst t. unfold SFltb, SFcompare in *.
  destruct (Z.compare_spec (-53) e) as [He | Hlt | Hgt].
  - subst e. reflexivity.
  - discriminate Hc.
  - destruct (Z.compare_spec e (-52)) as [-> | _ | ?]; [lia | reflexivity | lia].
Qed.

Lemma deviate_of_range (y : Z) :
  0 <= y < 2 ^ 53 ->
  (0 <=? deviate_of (Some (Int y)))%float = true
  /\ (deviate_of (Some (Int y)) <? 1)%float = true.
Proof.
  intros Hy. unfold deviate_of. cbn [ToNumber float_of_num].
  pose proof (AM_mul_sign y Hy) as Hs.
  destruct (RNMX <? AM * float_of_Z y)%float eqn:E.
  - split; vm_compute; reflexivity.
  - rewrite FloatAxioms.ltb_spec, Prim2SF_RNMX in E.
    rewrite FloatAxioms.leb_spec, FloatAxioms.ltb_spec, Prim2SF_zero, Prim2SF_one. split.
    + apply sign_leb_zero, Hs.
    + apply below_RNMX_below_one; assumption.
Qed.

Lemma deviate_of_pos (y : Z) :
  1 <= y < 2 ^ 53 -> (0 <? deviate_of (Some (Int y)))%float = true.
Proof.
  intros Hy. unfold deviate_of. cbn [ToNumber float_of_num].
  destruct (RNMX <? AM * float_of_Z y)%float eqn:E.
  - vm_compute. reflexivity.
  - rewrite FloatAxioms.ltb_spec, Prim2SF_zero.
    apply sign_ltb_zero; [apply AM_mul_sign; lia | intros t; apply AM_mul_nonzero, Hy].
Qed.

(** * The range of the uniform deviate *)

Lemma schrageZ_in (lo x : Z) :
  lo = 0 \/ lo = 1 -> lo <= x < IM -> lo <= schrageZ x < IM.
Proof.
  intros [-> | ->] Hx; [apply schrageZ_range | apply schrageZ_range_pos]; exact Hx.
Qed.

Lemma settled_in (lo sd : Z) (n : nat) :
  lo = 0 \/ lo = 1 -> 1 <= sd < 2 ^ 53 -> (lo = 1 -> sd mod IM <> 0) ->
  (5 <= n)%nat -> lo <= Nat.iter n schrageZ sd < IM.
Proof.
  intros [-> | ->] Hsd Hm Hn.
  - apply iter_schrageZ_settled; assumption.
  - apply iter_schrageZ_settled_pos; auto.
Qed.

(** A continuation call on an engine inside the state space. *)
Lemma uniform_false_in (lo : Z) (start : num) (st : state) :
  lo = 0 \/ lo = 1 -> engine_in lo st ->
  (exists y, fst (uniform start false st) = deviate_of (Some (Int y)) /\ lo <= y < IM)
  /\ engine_in lo (snd (uniform start false st)).
Proof.
  intros Hlo (x & y & Hi & Hx & Ht & Hy). rewrite uniform_false. cbn [fst snd]. split.
  - exists y. rewrite Ht. split; [reflexivity | exact Hy].
  - unfold engine_in. cbn [idum iv set_engine].
    exists (schrageZ x), (schrageZ x).
    rewrite Hi, lookup_insert_eq. cbn [schrage].
    pose proof (schrageZ_in lo x Hlo Hx). auto.
Qed.

(** An initialising call, whatever the state before it. *)
Lemma uniform_true_in (lo sd : Z) (st : state) :
  lo = 0 \/ lo = 1 -> 1 <= sd < 2 ^ 53 -> (lo = 1 -> sd mod IM <> 0) ->
  (exists y, fst (uniform (Int sd) true st) = deviate_of (Some (Int y)) /\ lo <= y < IM)
  /\ engine_in lo (snd (uniform (Int sd) true st)).
Proof.
  intros Hlo Hsd Hm. rewrite uniform_true.
  destruct (uniform_init_first_slot sd st Hsd) as (y & j & Hc & Hy & Hj & Hj32).
  rewrite Hc. unfold uniform_draw. cbn [ToNumber fst snd]. rewrite Hj.
  rewrite uniform_init_slot by exact Hj32.
  rewrite uniform_init_idum, !iter_schrage_Int. cbn [schrage].
  pose proof (settled_in lo sd (40 - j) Hlo Hsd Hm ltac:(lia)) as Hslot.
  pose proof (settled_in lo sd 40 Hlo Hsd Hm ltac:(lia)) as H40.
  pose proof (schrageZ_in lo _ Hlo H40) as H41.
  split.
  - eexists. split; [reflexivity | exact Hslot].
  - unfold engine_in. cbn [idum iv set_engine].
    destruct (decide (Int (Z.of_nat j) = Int 0)) as [E | Hne].
    + exists (schrageZ (Nat.iter 40 schrageZ sd)), (schrageZ (Nat.iter 40 schrageZ sd)).
      rewrite E, lookup_insert_eq. auto.
    + exists (schrageZ (Nat.iter 40 schrageZ sd)), (Nat.iter 40 schrageZ sd).
      rewrite lookup_insert_ne by exact Hne.
      rewrite (uniform_init_slot _ _ 0) by lia. rewrite iter_schrage_Int. auto.
Qed.

(** C4: the start value 2147483647 is an integer [>= 1] below 2^53, and
    [uniform(2147483647, true)] returns exactly 0, which is not inside
    (0,1): the first application of the recurrence maps the modulus to 0,
    where the recurrence is stuck, and no guard replaces it. *)
Theorem seed_IM_draws_zero :
  valid_seed (Int 2147483647) = true
  /\ fst (uniform (Int 2147483647) true constructor) = 0%float
  /\ (0 <? fst (uniform (Int 2147483647) true constructor))%float = false.
Proof. repeat split; vm_compute; reflexivity. Qed.

(** * The distribution transforms *)

(** ** NaN in binary64 arithmetic *)

Lemma isNaN_f_spec (x : float) : isNaN_f x = true <-> Prim2SF x = S754_nan.
Proof.
  unfold isNaN_f. rewrite FloatAxioms.eqb_spec.
  destruct (Prim2SF x) as [t | t | | t m e]; cbn.
  - split; discriminate.
  - destruct t; split; discriminate.
  - split; reflexivity.
  - unfold SFeqb, SFcompare.
    destruct t; rewrite Z.compare_refl, Pos.compare_cont_refl; cbn; split; discriminate.
Qed.

Lemma isNaN_f_nan : isNaN_f nan = true.
Proof. reflexivity. Qed.

Lemma mul_nan_l (x y : float) : isNaN_f x = true -> isNaN_f (x * y)%float = true.
Proof.
  rewrite !isNaN_f_spec, FloatAxioms.mul_spec. intros ->.
  destruct (Prim2SF y); reflexivity.
Qed.

Lemma mul_nan_r (x y : float) : isNaN_f y = true -> isNaN_f (x * y)%float = true.
Proof.
  rewrite !isNaN_f_spec, FloatAxioms.mul_spec. intros ->.
  destruct (Prim2SF x); reflexivity.
Qed.

Lemma add_nan_r (x y : float) : isNaN_f y = true -> isNaN_f (x + y)%float = true.
Proof.
  rewrite !isNaN_f_spec, FloatAxioms.add_spec. intros ->.
  destruct (Prim2SF x); reflexivity.
Qed.

(** ** The engine does not touch the other fields *)

Lemma uniform_fields (start : num) (init : bool) (st : state) :
  let st' := snd (uniform start init st) in
  normVal st' = normVal st /\ u st' = u st /\ s st' = s st /\ a st' = a st
  /\ b st' = b st /\ a1 st' = a1 st /\ a2 st' = a2 st.
Proof.
  destruct init.
  - rewrite uniform_true. unfold uniform_draw. cbn [snd set_engine normVal u s a b a1 a2].
    apply uniform_init_fields.
  - rewrite uniform_false. cbn. repeat split.
Qed.

Lemma normal_loop_fields (fuel : nat) (start : num) (init : bool)
    (v1 v2 rsq : float) (st : state) v1' v2' rsq' st' :
  normal_loop fuel start init v1 v2 rsq st = Some (v1', v2', rsq', st') ->
  normVal st' = normVal st /\ u st' = u st /\ s st' = s st.
Proof.
  revert v1 v2 rsq st. induction fuel as [| fuel IH]; intros v1 v2 rsq st; cbn [normal_loop].
  - destruct ((1.0 <=? rsq)%float || (rsq =? 0.0)%float); [discriminate |].
    intros [= <- <- <- <-]. repeat split.
  - destruct ((1.0 <=? rsq)%float || (rsq =? 0.0)%float).
    + pose proof (uniform_fields start init st) as F1.
      destruct (uniform start init st) as [x1 st1]. cbn [snd] in F1.
      pose proof (uniform_fields start init st1) as F2.
      destruct (uniform start init st1) as [x2 st2]. cbn [snd] in F2.
      intros H. apply IH in H. intuition congruence.
    + intros [= <- <- <- <-]. repeat split.
Qed.

Lemma logistic_loop_fields (fuel : nat) (start : num) (init : bool)
    (v : float) (st : state) v' st' :
  logistic_loop fuel start init v st = Some (v', st') ->
  u st' = u st /\ s st' = s st.
Proof.
  revert v st. induction fuel as [| fuel IH]; intros v st; cbn [logistic_loop].
  - destruct (v * (1.0 - v) =? 0.0)%float; [discriminate |].
    intros [= <- <-]. split; reflexivity.
  - destruct (v * (1.0 - v) =? 0.0)%float.
    + pose proof (uniform_fields start init st) as F1.
      destruct (uniform start init st) as [x1 st1]. cbn [snd] in F1.
      intros H. apply IH in H. intuition congruence.
    + intros [= <- <-]. split; reflexivity.
Qed.

(** ** Adopting the mean and the standard deviation *)

Lemma adopt_mean_fallback (mu sig : float) (st : state) :
  isNaN_f mu = true \/ (mu <? 0)%float = true ->
  u (adopt_mean_sd mu sig st) = 0.0%float.
Proof.
  intros H. cbn. destruct H as [-> | H]; [reflexivity |].
  rewrite H, orb_true_r. reflexivity.
Qed.

Lemma adopt_mean_kept (mu sig : float) (st : state) :
  isNaN_f mu = false -> (mu <? 0)%float = false ->
  u (adopt_mean_sd mu sig st) = mu.
Proof. intros H1 H2. cbn. rewrite H1, H2. reflexivity. Qed.

Lemma adopt_sd_positive (mu sig : float) (st : state) :
  (0 <? sig)%float = true -> s (adopt_mean_sd mu sig st) = sig.
Proof. intros H. cbn. rewrite H, orb_true_r. reflexivity. Qed.

Lemma adopt_sd_fallback (mu sig : float) (st : state) :
  isNaN_f sig = false -> (0 <? sig)%float = false ->
  s (adopt_mean_sd mu sig st) = 1.0%float.
Proof. intros H1 H2. cbn. rewrite H1, H2. reflexivity. Qed.

Section TransformFacts.

Variable Math_log : float -> float.

(** C9: a NaN standard deviation does not fall back to 1.  The test
    [isNaN(sig) || sig > 0] accepts it, the field [s] becomes NaN, and the
    deviate that [normal] or [logistic] returns from such a call is NaN. *)
Theorem nan_stdDev_is_adopted :
  (forall mu st, isNaN_f (s (adopt_mean_sd mu nan st)) = true)
  /\ (forall fuel start mu st r st',
        normal Math_log fuel start mu nan true st = Some (r, st') ->
        isNaN_f (s st') = true /\ isNaN_f r = true)
  /\ (forall fuel start mu st r st',
        logistic Math_log fuel start mu nan true st = Some (r, st') ->
        isNaN_f (s st') = true /\ isNaN_f r = true).
Proof.
  split; [reflexivity |]. split.
  - intros fuel start mu st r st'. unfold normal.
    set (stp := adopt_mean_sd mu nan st).
    assert (Hs : isNaN_f (s stp) = true) by reflexivity.
    destruct (cache_empty stp).
    + destruct (normal_loop fuel start true nan nan 0.0%float stp)
        as [[[[v1 v2] rsq] stl] |] eqn:E; [| discriminate].
      apply normal_loop_fields in E as (_ & _ & Es).
      intros [= <- <-]. cbn [s u set_normVal]. rewrite Es. split; [exact Hs |].
      apply add_nan_r, mul_nan_l, mul_nan_l, Hs.
    + intros [= <- <-]. cbn [s u set_normVal]. split; [exact Hs |].
      apply add_nan_r, mul_nan_l, Hs.
  - intros fuel start mu st r st'. unfold logistic.
    set (stp := adopt_mean_sd mu nan st).
    assert (Hs : isNaN_f (s stp) = true) by reflexivity.
    destruct (logistic_loop fuel start true 0.0%float stp) as [[v stl] |] eqn:E;
      [| discriminate].
    apply logistic_loop_fields in E as (_ & Es).
    intros [= <- <-]. rewrite Es. split; [exact Hs |].
    apply add_nan_r, mul_nan_l, mul_nan_r, Hs.
Qed.

(** A pending cache is consumed whatever [init] says, and without any loop:
    no bound on the iterations is needed. *)
Lemma normal_pending (fuel : nat) (start : num) (mu sig : float) (init : bool)
    (st : state) :
  cache_empty st = false ->
  let stp := if init then adopt_mean_sd mu sig st else st in
  normal Math_log fuel start mu sig init st
  = Some ((u stp + s stp * normVal st)%float, set_normVal stp 0.0%float).
Proof.
  intros Hc. unfold normal.
  assert (E : cache_empty (if init then adopt_mean_sd mu sig st else st) = cache_empty st)
    by (destruct init; reflexivity).
  rewrite E, Hc. destruct init; reflexivity.
Qed.

(** C6: re-initialisation does not discard a cached normal value.  A call
    [uniform(start, true)] leaves [normVal] as it is, and a call
    [normal(start, mu, sig, true)] on an instance with a pending cache
    returns [u + s*cached] from the old sequence and never reaches the engine:
    [idum] and [iv] stay as they were, so nothing is re-initialised. *)
Theorem init_keeps_cached_normal (fuel : nat) (start : num) (mu sig : float)
    (st : state) :
  cache_empty st = false ->
  normVal (snd (uniform start true st)) = normVal st
  /\ exists r st',
       normal Math_log fuel start mu sig true st = Some (r, st')
       /\ r = (u (adopt_mean_sd mu sig st) + s (adopt_mean_sd mu sig st) * normVal st)%float
       /\ idum st' = idum st /\ iv st' = iv st.
Proof.
  intros Hc. split; [exact (proj1 (uniform_fields start true st)) |].
  eexists _, _. split; [apply (normal_pending fuel start mu sig true st Hc) |].
  repeat split.
Qed.

End TransformFacts.

Lemma init_keeps_cached_normal_witness :
  let st := state_after (normal tangent_log 1 (Int 1) 0.0 1.0 true constructor) in
  cache_empty st = false
  /\ normVal (snd (uniform (Int 90210) true st)) = normVal st
  /\ exists r st',
       normal tangent_log 0 (Int 90210) 0.0 1.0 true st = Some (r, st')
       /\ r = (u (adopt_mean_sd 0.0 1.0 st) + s (adopt_mean_sd 0.0 1.0 st) * normVal st)%float
       /\ idum st' = idum st /\ iv st' = iv st.
Proof.
  intros st.
  assert (Hc : cache_empty st = false) by (vm_compute; reflexivity).
  split; [exact Hc |].
  exact (init_keeps_cached_normal tangent_log 0 (Int 90210) 0.0 1.0 st Hc).
Defined.

(** C8: the inner loop [while (v <= 0.0)] draws [x] only while [v <= 0];
    from the second pass of the rejection loop on, [v] holds the cube of the
    pass before, the inner loop is skipped, and the pass draws one uniform
    value (for [u]), keeps the old [x] and cubes [v] once more.  After
    [uniform(172, true)], the call [gamma(172, 1.0, 0.5, false)] draws
    x = 0.838..., v = 2.418..., u = 0.998... in its first pass; its second
    pass keeps x = 0.838..., sets v = 14.13... and draws only u = 0.297... *)
Theorem gamma_retry_keeps_x :
  (forall fuel start init u v x xSQ st,
     (v <=? 0.0)%float = false ->
     gamma_body fuel start init (u, v, x, xSQ) st
     = Some (fst (uniform start init st), (v * v * v)%float, x, (x * x)%float,
             snd (uniform start init st)))
  /\ (let st0 := gamma_params 1.0 0.5 (snd (uniform (Int 172) true constructor)) in
      let pass1 := gamma_body 1 (Int 172) false (10.0, 0.0, 0.0, 0.0)%float st0 in
      let pass2 :=
        match pass1 with
        | Some (l, st1) => gamma_body 1 (Int 172) false l st1
        | None => None
        end in
      option_map fst pass1
      = Some (0.99864922882926144, 2.4180538024169698,
              0.83825136480771534, 0.70266535060199742)%float
      /\ option_map fst pass2
         = Some (0.29758893339782438, 14.138322356645975,
                 0.83825136480771534, 0.70266535060199742)%float).
Proof.
  split.
  - intros fuel start init u v x xSQ st Hv. unfold gamma_body.
    assert (E : gamma_redraw fuel start init v x st = Some (v, x, st))
      by (destruct fuel; cbn [gamma_redraw]; rewrite Hv; reflexivity).
    rewrite E. destruct (uniform start init st). reflexivity.
  - split; vm_compute; reflexivity.
Qed.

Lemma gamma_retry_keeps_x_witness :
  gamma_body 0 (Int 172) false (0.5, 2.0, 0.25, 0.0625)%float
    (snd (uniform (Int 172) true constructor))
  = Some (fst (uniform (Int 172) false (snd (uniform (Int 172) true constructor))),
          (2.0 * 2.0 * 2.0)%float, 0.25%float, (0.25 * 0.25)%float,
          snd (uniform (Int 172) false (snd (uniform (Int 172) true constructor)))).
Proof.
  apply (proj1 gamma_retry_keeps_x). reflexivity.
Defined.

Lemma nan_stdDev_is_adopted_witness :
  isNaN_f (s (state_after (normal tangent_log 1 (Int 1) 0.0 nan true constructor))) = true
  /\ isNaN_f (deviate_after (normal tangent_log 1 (Int 1) 0.0 nan true constructor)) = true.
Proof.
  apply (proj1 (proj2 (nan_stdDev_is_adopted tangent_log)) 1%nat (Int 1) 0.0%float constructor).
  vm_compute. reflexivity.
Defined.

(** * The recurrence as a Lehmer generator *)

Lemma schrageZ_mulmod (x : Z) :
  0 <= x < IM -> schrageZ x = (IA * x) mod IM.
Proof.
  intros Hx. rewrite <- schrageZ_mod. symmetry.
  apply Z.mod_small, schrageZ_range, Hx.
Qed.

(** On the state space, Schrage's scheme is the multiplication by [IA]
    modulo [IM], and none of its intermediate values leaves the 32-bit
    range that the scheme is designed for. *)
Theorem schrageZ_exact (x : Z) :
  0 <= x < IM ->
  schrageZ x = (IA * x) mod IM
  /\ 0 <= IA * (x - x / IQ * IQ) < IM
  /\ 0 <= IR * (x / IQ) < IM
  /\ - IM < IA * (x - x / IQ * IQ) - IR * (x / IQ) < IM.
Proof.
  intros Hx. split; [apply schrageZ_mulmod, Hx |].
  unfold IM, IA, IQ, IR in *. Z.div_mod_to_equations. lia.
Qed.

Lemma schrageZ_exact_witness :
  schrageZ 2147483646 = (IA * 2147483646) mod IM
  /\ 0 <= IA * (2147483646 - 2147483646 / IQ * IQ) < IM
  /\ 0 <= IR * (2147483646 / IQ) < IM
  /\ - IM < IA * (2147483646 - 2147483646 / IQ * IQ) - IR * (2147483646 / IQ) < IM.
Proof. apply (schrageZ_exact 2147483646). split; [lia | reflexivity]. Defined.

Lemma iter_schrageZ_mod (n : nat) (x : Z) :
  Nat.iter n schrageZ x mod IM = (IA ^ Z.of_nat n * x) mod IM.
Proof.
  induction n as [| n IH].
  - change (Nat.iter 0 schrageZ x) with x.
    rewrite Z.pow_0_r, Z.mul_1_l. reflexivity.
  - change (Nat.iter (S n) schrageZ x) with (schrageZ (Nat.iter n schrageZ x)).
    rewrite schrageZ_mod, <- Z.mul_mod_idemp_r, IH by discriminate.
    rewrite Z.mul_mod_idemp_r by discriminate.
    rewrite Nat2Z.inj_succ, Z.pow_succ_r by lia.
    f_equal. ring.
Qed.

(** [n] applications on the state space compute [IA^n * x mod IM]. *)
Theorem iter_schrageZ_power (n : nat) (x : Z) :
  0 <= x < IM -> Nat.iter n schrageZ x = (IA ^ Z.of_nat n * x) mod IM.
Proof.
  intros Hx. rewrite <- iter_schrageZ_mod. symmetry.
  apply Z.mod_small, iter_schrageZ_range, Hx.
Qed.

Lemma iter_schrageZ_power_witness :
  Nat.iter 41 schrageZ 1 = (IA ^ Z.of_nat 41 * 1) mod IM.
Proof. apply (iter_schrageZ_power 41 1). split; [lia | reflexivity]. Defined.

(** The recurrence never merges two states: it is injective on the state
    space, since [IA] has the inverse 1407677000 modulo [IM]. *)
Theorem schrageZ_injective (x y : Z) :
  0 <= x < IM -> 0 <= y < IM -> schrageZ x = schrageZ y -> x = y.
Proof.
  intros Hx Hy E.
  rewrite (schrageZ_mulmod x Hx), (schrageZ_mulmod y Hy) in E.
  assert (Hinv : (1407677000 * IA) mod IM = 1) by reflexivity.
  assert (R : forall z, 0 <= z < IM -> (1407677000 * ((IA * z) mod IM)) mod IM = z).
  { intros z Hz. rewrite Z.mul_mod_idemp_r, Z.mul_assoc by discriminate.
    rewrite <- Z.mul_mod_idemp_l, Hinv, Z.mul_1_l by discriminate.
    apply Z.mod_small, Hz. }
  rewrite <- (R x Hx), <- (R y Hy), E. reflexivity.
Qed.

Lemma schrageZ_injective_witness : 2147483646 = 2147483646.
Proof.
  apply (schrageZ_injective 2147483646 2147483646);
    [split; [lia | reflexivity] | split; [lia | reflexivity] | reflexivity].
Defined.

(** ** Start values of either sign *)

Lemma schrageZ_wide_1 (x : Z) :
  - 2 ^ 53 < x < 2 ^ 53 -> - 210000000000000 <= schrageZ x <= 210000000000000.
Proof.
  unfold schrageZ, IM, IA, IQ, IR. intros Hx. change (2 ^ 53) with 9007199254740992 in Hx.
  destruct (Z.ltb_spec (16807 * (x - x / 127773 * 127773) - 2836 * (x / 127773)) 0);
    Z.div_mod_to_equations; lia.
Qed.

Lemma schrageZ_wide_2 (x : Z) :
  - 210000000000000 <= x <= 210000000000000 ->
  - 4700000000000 <= schrageZ x <= 4700000000000.
Proof.
  unfold schrageZ, IM, IA, IQ, IR. intros Hx.
  destruct (Z.ltb_spec (16807 * (x - x / 127773 * 127773) - 2836 * (x / 127773)) 0);
    Z.div_mod_to_equations; lia.
Qed.

Lemma schrageZ_wide_3 (x : Z) :
  - 4700000000000 <= x <= 4700000000000 ->
  - 110000000000 <= schrageZ x <= 110000000000.
Proof.
  unfold schrageZ, IM, IA, IQ, IR. intros Hx.
  destruct (Z.ltb_spec (16807 * (x - x / 127773 * 127773) - 2836 * (x / 127773)) 0);
    Z.div_mod_to_equations; lia.
Qed.

Lemma schrageZ_wide_4 (x : Z) :
  - 110000000000 <= x <= 110000000000 ->
  - 2500000000 <= schrageZ x <= 4600000000.
Proof.
  unfold schrageZ, IM, IA, IQ, IR. intros Hx.
  destruct (Z.ltb_spec (16807 * (x - x / 127773 * 127773) - 2836 * (x / 127773)) 0);
    Z.div_mod_to_equations; lia.
Qed.

Lemma schrageZ_wide_5 (x : Z) :
  - 2500000000 <= x <= 4600000000 -> 0 <= schrageZ x <= 4600000000.
Proof.
  unfold schrageZ, IM, IA, IQ, IR. intros Hx.
  destruct (Z.ltb_spec (16807 * (x - x / 127773 * 127773) - 2836 * (x / 127773)) 0);
    Z.div_mod_to_equations; lia.
Qed.

Lemma schrageZ_wide_6 (x : Z) :
  0 <= x <= 4600000000 -> 0 <= schrageZ x < IM.
Proof.
  unfold schrageZ, IM, IA, IQ, IR. intros Hx.
  destruct (Z.ltb_spec (16807 * (x - x / 127773 * 127773) - 2836 * (x / 127773)) 0);
    Z.div_mod_to_equations; lia.
Qed.

Lemma schrageZ_wide_settles (x : Z) :
  - 2 ^ 53 < x < 2 ^ 53 -> 0 <= Nat.iter 6 schrageZ x < IM.
Proof.
  intros Hx. simpl.
  apply schrageZ_wide_6, schrageZ_wide_5, schrageZ_wide_4, schrageZ_wide_3,
    schrageZ_wide_2, schrageZ_wide_1, Hx.
Qed.

Lemma iter_schrageZ_pulled (sd : Z) (n : nat) :
  - 2 ^ 53 < sd < 2 ^ 53 -> (6 <= n)%nat ->
  0 <= Nat.iter n schrageZ sd < IM
  /\ Nat.iter n schrageZ sd = (IA ^ Z.of_nat n * sd) mod IM.
Proof.
  intros Hsd Hn.
  assert (Hr : 0 <= Nat.iter n schrageZ sd < IM).
  { replace n with ((n - 6) + 6)%nat by lia. rewrite Nat.iter_add.
    apply iter_schrageZ_range, schrageZ_wide_settles, Hsd. }
  split; [exact Hr |].
  rewrite <- iter_schrageZ_mod. symmetry. apply Z.mod_small, Hr.
Qed.

(** Every integer start value that binary64 counts exactly, of either sign,
    is inside the state space after six applications, from then on is the
    Lehmer iterate of its residue, and is 0 there exactly when the start
    value is a multiple of [IM]. *)
Theorem schrageZ_pulls_in (sd : Z) (n : nat) :
  - 2 ^ 53 < sd < 2 ^ 53 -> (6 <= n)%nat ->
  0 <= Nat.iter n schrageZ sd < IM
  /\ Nat.iter n schrageZ sd = (IA ^ Z.of_nat n * sd) mod IM
  /\ (Nat.iter n schrageZ sd = 0 <-> sd mod IM = 0).
Proof.
  intros Hsd Hn.
  destruct (iter_schrageZ_pulled sd n Hsd Hn) as [Hr Hc].
  split; [exact Hr |]. split; [exact Hc |]. split.
  - intros Hz. destruct (Z.eq_dec (sd mod IM) 0) as [E | Hne]; [exact E | exfalso].
    apply (iter_schrageZ_mod_nonzero n sd Hne). rewrite Hz. reflexivity.
  - intros Hz. rewrite Hc, <- Z.mul_mod_idemp_r, Hz, Z.mul_0_r by discriminate.
    reflexivity.
Qed.

Lemma schrageZ_pulls_in_witness :
  0 <= Nat.iter 8 schrageZ (- 9007199254740991) < IM
  /\ Nat.iter 8 schrageZ (- 9007199254740991)
     = (IA ^ Z.of_nat 8 * (- 9007199254740991)) mod IM
  /\ (Nat.iter 8 schrageZ (- 9007199254740991) = 0
      <-> (- 9007199254740991) mod IM = 0).
Proof.
  apply (schrageZ_pulls_in (- 9007199254740991) 8); [split; reflexivity | lia].
Defined.

(** ** The exact range is kept *)

Lemma schrage_exact (x : num) :
  exact_num x = true -> exact_num (schrage x) = true.
Proof.
  destruct x as [| z]; [reflexivity |]. cbn [exact_num schrage]. intros H.
  apply andb_true_iff in H. destruct H as [H1 H2].
  apply Z.ltb_lt in H1, H2.
  pose proof (schrageZ_wide_1 z (conj H1 H2)) as Hw.
  change (2 ^ 53) with 9007199254740992.
  apply andb_true_iff. split; apply Z.ltb_lt; lia.
Qed.

Lemma iter_schrage_exact (n : nat) (x : num) :
  exact_num x = true -> exact_num (Nat.iter n schrage x) = true.
Proof.
  intros Hx. induction n as [| n IH]; [exact Hx |].
  change (Nat.iter (S n) schrage x) with (schrage (Nat.iter n schrage x)).
  apply schrage_exact, IH.
Qed.

(** * The engine on start values of either sign *)

Lemma safe_seed_spec (x : num) :
  safe_seed x = true -> exists sd, x = Int sd /\ - 2 ^ 53 < sd < 2 ^ 53.
Proof.
  destruct x as [| sd]; cbn -[Z.pow]; [discriminate |].
  intros H. apply andb_true_iff in H as [H1 H2].
  exists sd. split; [reflexivity | lia].
Qed.

Lemma live_seed_spec (x : num) :
  live_seed x = true ->
  exists sd, x = Int sd /\ - 2 ^ 53 < sd < 2 ^ 53 /\ sd mod IM <> 0.
Proof.
  destruct x as [| sd]; cbn -[Z.pow]; [discriminate |].
  intros H. apply andb_true_iff in H as [H H3].
  apply andb_true_iff in H as [H1 H2].
  exists sd. split; [reflexivity |]. split; [lia |].
  apply negb_true_iff, Z.eqb_neq in H3. exact H3.
Qed.

Lemma dead_seed_spec (x : num) :
  dead_seed x = true ->
  exists sd, x = Int sd /\ - 2 ^ 53 < sd < 2 ^ 53 /\ sd mod IM = 0.
Proof.
  destruct x as [| sd]; cbn -[Z.pow]; [discriminate |].
  intros H. apply andb_true_iff in H as [H H3].
  apply andb_true_iff in H as [H1 H2].
  exists sd. split; [reflexivity |]. split; [lia |].
  apply Z.eqb_eq in H3. exact H3.
Qed.

Lemma wide_settled_in (lo sd : Z) (n : nat) :
  lo = 0 \/ lo = 1 -> - 2 ^ 53 < sd < 2 ^ 53 -> (lo = 1 -> sd mod IM <> 0) ->
  (6 <= n)%nat -> lo <= Nat.iter n schrageZ sd < IM.
Proof.
  intros Hlo Hsd Hm Hn.
  destruct (iter_schrageZ_pulled sd n Hsd Hn) as [Hr _].
  destruct Hlo as [-> | ->]; [exact Hr |].
  pose proof (iter_schrageZ_mod_nonzero n sd (Hm eq_refl)) as Hz.
  rewrite Z.mod_small in Hz by exact Hr. lia.
Qed.

(** An initialising call whose start value has settled in the state space
    by the time the table is filled. *)
Lemma uniform_true_settled (lo sd : Z) (st : state) :
  lo = 0 \/ lo = 1 ->
  (forall n, (8 <= n)%nat -> lo <= Nat.iter n schrageZ sd < IM) ->
  exists (y : Z) (j : nat),
    (j < 32)%nat
    /\ table_index (Int (Nat.iter 40 schrageZ sd)) = Int (Z.of_nat j)
    /\ y = Nat.iter (40 - j) schrageZ sd
    /\ lo <= y < IM
    /\ fst (uniform (Int sd) true st) = deviate_of (Some (Int y))
    /\ idum (snd (uniform (Int sd) true st)) = Int (schrageZ (Nat.iter 40 schrageZ sd))
    /\ (j = 0%nat
         /\ iv (snd (uniform (Int sd) true st)) !! Int 0
            = Some (Int (schrageZ (Nat.iter 40 schrageZ sd)))
        \/ j <> 0%nat
           /\ iv (snd (uniform (Int sd) true st)) !! Int 0
              = Some (Int (Nat.iter 40 schrageZ sd))).
Proof.
  intros Hlo Hs.
  assert (H40 : 0 <= Nat.iter 40 schrageZ sd < IM)
    by (pose proof (Hs 40%nat ltac:(lia)); destruct Hlo; lia).
  destruct (table_index_range _ H40) as (jz & Hj & Hjr).
  unfold NTAB in Hjr.
  exists (Nat.iter (40 - Z.to_nat jz) schrageZ sd), (Z.to_nat jz).
  assert (Hj' : table_index (Int (Nat.iter 40 schrageZ sd)) = Int (Z.of_nat (Z.to_nat jz)))
    by (rewrite Z2Nat.id by lia; exact Hj).
  split; [lia |]. split; [exact Hj' |]. split; [reflexivity |].
  split; [apply Hs; lia |].
  rewrite uniform_true, uniform_init_carry, iter_schrage_Int.
  unfold uniform_draw. cbn [ToNumber fst snd idum iv set_engine]. rewrite Hj'.
  rewrite uniform_init_slot by lia.
  rewrite uniform_init_idum, !iter_schrage_Int. cbn [schrage].
  split; [reflexivity |]. split; [reflexivity |].
  destruct (Nat.eq_dec (Z.to_nat jz) 0%nat) as [E | Hne].
  - left. split; [exact E |]. rewrite E. change (Int (Z.of_nat 0)) with (Int 0).
    rewrite lookup_insert_eq. reflexivity.
  - right. split; [exact Hne |].
    rewrite lookup_insert_ne by (intros [=]; lia).
    change (Int 0) with (Int (Z.of_nat 0)).
    rewrite uniform_init_slot by lia. rewrite iter_schrage_Int.
    replace (40 - 0)%nat with 40%nat by lia. reflexivity.
Qed.

Lemma settled_41 (lo sd : Z) :
  (forall n, (8 <= n)%nat -> lo <= Nat.iter n schrageZ sd < IM) ->
  lo <= schrageZ (Nat.iter 40 schrageZ sd) < IM.
Proof.
  intros Hs. rewrite <- (Nat.iter_succ 40 schrageZ sd). apply Hs. lia.
Qed.

Lemma uniform_true_settled_in (lo sd : Z) (st : state) :
  lo = 0 \/ lo = 1 ->
  (forall n, (8 <= n)%nat -> lo <= Nat.iter n schrageZ sd < IM) ->
  (exists y, fst (uniform (Int sd) true st) = deviate_of (Some (Int y)) /\ lo <= y < IM)
  /\ engine_in lo (snd (uniform (Int sd) true st)).
Proof.
  intros Hlo Hs.
  destruct (uniform_true_settled lo sd st Hlo Hs)
    as (y & j & Hj & _ & _ & Hy & Hv & Hi & Ht).
  split; [exists y; auto |].
  pose proof (settled_41 lo sd Hs) as H41.
  pose proof (Hs 40%nat ltac:(lia)) as H40.
  destruct Ht as [[_ Ht] | [_ Ht]]; eexists _, _; (split; [exact Hi |]);
    (split; [exact H41 |]); (split; [exact Ht |]); assumption.
Qed.

Lemma run_settled (lo : Z) (ok : num -> bool) (calls : list (num * bool)) (st : state) :
  lo = 0 \/ lo = 1 ->
  (forall x, ok x = true ->
     exists sd, x = Int sd
                /\ forall n, (8 <= n)%nat -> lo <= Nat.iter n schrageZ sd < IM) ->
  engine_in lo st \/ starts_with_init calls = true ->
  init_seeds ok calls = true ->
  Forall (fun v => exists y, v = deviate_of (Some (Int y)) /\ lo <= y < IM)
         (fst (run calls st))
  /\ engine_in lo (snd (run calls st)).
Proof.
  intros Hlo Hok. revert st.
  induction calls as [| [start init] calls IH]; intros st Hst Hseeds.
  - cbn [run fst snd]. split; [constructor |].
    destruct Hst as [Hst | Hst]; [exact Hst | discriminate].
  - cbn [run]. cbn [init_seeds forallb snd fst] in Hseeds.
    apply andb_true_iff in Hseeds as [Hseed Hseeds].
    assert (Hcall :
      (exists y, fst (uniform start init st) = deviate_of (Some (Int y)) /\ lo <= y < IM)
      /\ engine_in lo (snd (uniform start init st))).
    { destruct init.
      - destruct (Hok start Hseed) as (sd & -> & Hs).
        apply uniform_true_settled_in; assumption.
      - destruct Hst as [Hst | Hst]; [| discriminate].
        apply uniform_false_in; assumption. }
    destruct Hcall as [Hv Hst'].
    destruct (uniform start init st) as [v st']. cbn [fst snd] in Hv, Hst'.
    specialize (IH st' (or_introl Hst') Hseeds).
    destruct (run calls st') as [vs st'']. cbn [fst snd] in *.
    destruct IH as [IH1 IH2]. split; [constructor; assumption | exact IH2].
Qed.

Lemma safe_seed_settles (x : num) :
  safe_seed x = true ->
  exists sd, x = Int sd
             /\ forall n, (8 <= n)%nat -> 0 <= Nat.iter n schrageZ sd < IM.
Proof.
  intros Hx. destruct (safe_seed_spec x Hx) as (sd & -> & Hsd).
  exists sd. split; [reflexivity |]. intros n Hn.
  apply (wide_settled_in 0); auto; try lia.
Qed.

Lemma live_seed_settles (x : num) :
  live_seed x = true ->
  exists sd, x = Int sd
             /\ forall n, (8 <= n)%nat -> 1 <= Nat.iter n schrageZ sd < IM.
Proof.
  intros Hx. destruct (live_seed_spec x Hx) as (sd & -> & Hsd & Hm).
  exists sd. split; [reflexivity |]. intros n Hn.
  apply (wide_settled_in 1); auto; lia.
Qed.

(** Start values that are zero or negative are neither rejected nor
    replaced: in every sequence of calls that starts with an initialising
    call and whose initialising calls pass integers of magnitude below 2^53,
    of either sign, every returned value [v] satisfies [0 <= v < 1], and
    [0 < v] when no start value is a multiple of [IM]. *)
Theorem uniform_range_any_sign (calls : list (num * bool)) (st : state) :
  starts_with_init calls = true ->
  init_seeds safe_seed calls = true ->
  Forall (fun v => (0 <=? v)%float = true /\ (v <? 1)%float = true)
         (fst (run calls st))
  /\ (init_seeds live_seed calls = true ->
      Forall (fun v => (0 <? v)%float = true) (fst (run calls st))).
Proof.
  intros Hfirst Hseeds. split.
  - destruct (run_settled 0 safe_seed calls st (or_introl eq_refl) safe_seed_settles
                (or_intror Hfirst) Hseeds) as [H _].
    apply (Forall_impl _ _ _ H). intros v (y & -> & Hy).
    apply deviate_of_range.
    change (2 ^ 53) with 9007199254740992. unfold IM in Hy. lia.
  - intros Hlive.
    destruct (run_settled 1 live_seed calls st (or_intror eq_refl) live_seed_settles
                (or_intror Hfirst) Hlive) as [H _].
    apply (Forall_impl _ _ _ H). intros v (y & -> & Hy).
    apply deviate_of_pos.
    change (2 ^ 53) with 9007199254740992. unfold IM in Hy. lia.
Qed.

Lemma uniform_range_any_sign_witness :
  let calls := (Int (-5), true) :: (Int 3, false) :: (Int 0, true)
               :: (NaN, false) :: (Int (- 4294967296), true) :: nil in
  Forall (fun v => (0 <=? v)%float = true /\ (v <? 1)%float = true)
         (fst (run calls constructor))
  /\ (init_seeds live_seed calls = true ->
      Forall (fun v => (0 <? v)%float = true) (fst (run calls constructor))).
Proof.
  intros calls.
  apply (uniform_range_any_sign calls constructor); vm_compute; reflexivity.
Defined.

(** * What the draws are *)

Lemma deviate_of_zero : deviate_of (Some (Int 0)) = 0%float.
Proof. vm_compute. reflexivity. Qed.

Lemma pulled_in_congruent (sd sd' : Z) (n : nat) :
  - 2 ^ 53 < sd < 2 ^ 53 -> - 2 ^ 53 < sd' < 2 ^ 53 ->
  sd mod IM = sd' mod IM -> (6 <= n)%nat ->
  Nat.iter n schrageZ sd = Nat.iter n schrageZ sd'.
Proof.
  intros Hsd Hsd' E Hn.
  destruct (iter_schrageZ_pulled sd n Hsd Hn) as [_ ->].
  destruct (iter_schrageZ_pulled sd' n Hsd' Hn) as [_ ->].
  rewrite <- (Z.mul_mod_idemp_r _ sd), <- (Z.mul_mod_idemp_r _ sd'), E by discriminate.
  reflexivity.
Qed.

Lemma uniform_true_congruent (sd sd' : Z) (st st' : state) :
  - 2 ^ 53 < sd < 2 ^ 53 -> - 2 ^ 53 < sd' < 2 ^ 53 ->
  sd mod IM = sd' mod IM ->
  fst (uniform (Int sd) true st) = fst (uniform (Int sd') true st')
  /\ engine_agree (snd (uniform (Int sd) true st)) (snd (uniform (Int sd') true st')).
Proof.
  intros Hsd Hsd' E.
  assert (Hs : forall n, (8 <= n)%nat -> 0 <= Nat.iter n schrageZ sd < IM)
    by (intros k Hk; apply (iter_schrageZ_pulled sd k Hsd); lia).
  assert (Hs' : forall n, (8 <= n)%nat -> 0 <= Nat.iter n schrageZ sd' < IM)
    by (intros k Hk; apply (iter_schrageZ_pulled sd' k Hsd'); lia).
  destruct (uniform_true_settled 0 sd st (or_introl eq_refl) Hs)
    as (y & j & Hj & Hidx & Hy & _ & Hv & Hi & Ht).
  destruct (uniform_true_settled 0 sd' st' (or_introl eq_refl) Hs')
    as (y' & j' & Hj' & Hidx' & Hy' & _ & Hv' & Hi' & Ht').
  pose proof (pulled_in_congruent sd sd' 40 Hsd Hsd' E ltac:(lia)) as E40.
  assert (Ej : j = j').
  { rewrite E40, Hidx' in Hidx. injection Hidx as Hidx. lia. }
  subst j'.
  assert (Ey : y = y').
  { rewrite Hy, Hy'. apply pulled_in_congruent; auto. lia. }
  split; [rewrite Hv, Hv', Ey; reflexivity |].
  split.
  - rewrite Hi, Hi', E40. reflexivity.
  - destruct Ht as [[Hz Ht] | [Hz Ht]], Ht' as [[Hz' Ht'] | [Hz' Ht']];
      try contradiction; rewrite Ht, Ht', E40; reflexivity.
Qed.

(** Only the residue of the start value modulo [IM] matters: two start
    values of magnitude below 2^53 that are congruent modulo 2147483647
    give the same first draw and the same continuation draws, whatever the
    states of the two instances were. *)
Theorem congruent_seeds_same_draws
    (sd sd' : Z) (st st' : state) (n : nat) (start start' : num) :
  - 2 ^ 53 < sd < 2 ^ 53 -> - 2 ^ 53 < sd' < 2 ^ 53 ->
  sd mod IM = sd' mod IM ->
  fst (uniform (Int sd) true st) = fst (uniform (Int sd') true st')
  /\ fst (draws n start (snd (uniform (Int sd) true st)))
     = fst (draws n start' (snd (uniform (Int sd') true st'))).
Proof.
  intros Hsd Hsd' E.
  destruct (uniform_true_congruent sd sd' st st' Hsd Hsd' E) as [Hv Ha].
  split; [exact Hv |]. apply draws_agree, Ha.
Qed.

Lemma congruent_seeds_same_draws_witness :
  fst (uniform (Int 1) true constructor)
  = fst (uniform (Int (-2147483646)) true (snd (uniform (Int 7) true constructor)))
  /\ fst (draws 3 NaN (snd (uniform (Int 1) true constructor)))
     = fst (draws 3 NaN
              (snd (uniform (Int (-2147483646)) true
                      (snd (uniform (Int 7) true constructor))))).
Proof.
  apply (congruent_seeds_same_draws 1 (-2147483646)); [split | split |]; reflexivity.
Defined.

Lemma stalled_uniform_false (start : num) (st : state) :
  stalled st ->
  fst (uniform start false st) = 0%float /\ stalled (snd (uniform start false st)).
Proof.
  intros [Hi Ht]. rewrite uniform_false. cbn [fst snd]. split.
  - rewrite Ht. apply deviate_of_zero.
  - unfold stalled. cbn [idum iv set_engine].
    rewrite Hi, lookup_insert_eq. split; reflexivity.
Qed.

Lemma stalled_draws (n : nat) (start : num) (st : state) :
  stalled st ->
  Forall (fun v => v = 0%float) (fst (draws n start st))
  /\ stalled (snd (draws n start st)).
Proof.
  revert st. induction n as [| n IH]; intros st Hst; cbn [draws].
  - split; [constructor | exact Hst].
  - destruct (stalled_uniform_false start st Hst) as [Hv Hst'].
    destruct (uniform start false st) as [v st']. cbn [fst snd] in Hv, Hst'.
    destruct (IH st' Hst') as [IH1 IH2].
    destruct (draws n start st') as [vs st'']. cbn [fst snd] in *.
    split; [constructor; assumption | exact IH2].
Qed.

Lemma dead_seed_uniform_true (sd : Z) (st : state) :
  - 2 ^ 53 < sd < 2 ^ 53 -> sd mod IM = 0 ->
  fst (uniform (Int sd) true st) = 0%float
  /\ stalled (snd (uniform (Int sd) true st)).
Proof.
  intros Hsd Hm.
  assert (Hz : forall n, (6 <= n)%nat -> Nat.iter n schrageZ sd = 0).
  { intros n Hn. destruct (iter_schrageZ_pulled sd n Hsd Hn) as [_ ->].
    rewrite <- Z.mul_mod_idemp_r, Hm, Z.mul_0_r by discriminate. reflexivity. }
  assert (Hs : forall n, (8 <= n)%nat -> 0 <= Nat.iter n schrageZ sd < IM)
    by (intros k Hk; apply (iter_schrageZ_pulled sd k Hsd); lia).
  destruct (uniform_true_settled 0 sd st (or_introl eq_refl) Hs)
    as (y & j & Hj & _ & Hy & _ & Hv & Hi & Ht).
  rewrite Hz in Hy by lia. subst y.
  rewrite (Hz 40%nat) in Hi, Ht by lia.
  split; [rewrite Hv; apply deviate_of_zero |].
  split; [exact Hi |].
  destruct Ht as [[_ Ht] | [_ Ht]]; exact Ht.
Qed.

(** A start value that is a multiple of [IM] (0 included) stalls the
    generator: the initialising call returns exactly 0, so does every
    continuation call after it, and the seed stays 0. *)
Theorem dead_seed_stalls (x start : num) (st : state) (n : nat) :
  dead_seed x = true ->
  fst (uniform x true st) = 0%float
  /\ Forall (fun v => v = 0%float) (fst (draws n start (snd (uniform x true st))))
  /\ idum (snd (draws n start (snd (uniform x true st)))) = Int 0.
Proof.
  intros Hx. destruct (dead_seed_spec x Hx) as (sd & -> & Hsd & Hm).
  destruct (dead_seed_uniform_true sd st Hsd Hm) as [Hv Hst].
  split; [exact Hv |].
  destruct (stalled_draws n start _ Hst) as [Hd [Hi _]].
  split; assumption.
Qed.

Lemma dead_seed_stalls_witness :
  fst (uniform (Int (-4294967294)) true constructor) = 0%float
  /\ Forall (fun v => v = 0%float)
       (fst (draws 4 (Int 1) (snd (uniform (Int (-4294967294)) true constructor))))
  /\ idum (snd (draws 4 (Int 1) (snd (uniform (Int (-4294967294)) true constructor))))
     = Int 0.
Proof.
  apply (dead_seed_stalls (Int (-4294967294)) (Int 1) constructor 4). reflexivity.
Defined.

Lemma draws_stream (n : nat) (start : num) (st : state) :
  fst (draws (S n) start st)
  = deviate_of (iv st !! Int 0)
    :: map (fun k => deviate_of (Some (Nat.iter k schrage (idum st)))) (seq 1 n)
  /\ idum (snd (draws (S n) start st)) = Nat.iter (S n) schrage (idum st).
Proof.
  revert st. induction n as [| n IH]; intros st.
  - cbn [draws]. rewrite uniform_false. cbn. split; reflexivity.
  - change (draws (S (S n)) start st)
      with (let '(v, st1) := uniform start false st in
            let '(vs, st2) := draws (S n) start st1 in (v :: vs, st2)).
    rewrite uniform_false.
    specialize (IH (set_engine st (schrage (idum st))
                      (<[Int 0 := schrage (idum st)]> (iv st)))).
    destruct (draws (S n) start _) as [vs st2]. cbn [fst snd] in IH |- *.
    destruct IH as [IH1 IH2]. cbn [idum iv set_engine] in IH1, IH2.
    rewrite lookup_insert_eq in IH1. split.
    + rewrite IH1. f_equal. cbn [seq map]. f_equal.
      rewrite <- (List.seq_shift n 1), List.map_map. apply List.map_ext. intros k.
      rewrite (Nat.iter_succ_r k). reflexivity.
    + rewrite IH2. rewrite (Nat.iter_succ_r (S n)). reflexivity.
Qed.

Lemma draws_table (n : nat) (start : num) (st : state) (k : num) :
  k <> Int 0 -> iv (snd (draws n start st)) !! k = iv st !! k.
Proof.
  intros Hk. revert st. induction n as [| n IH]; intros st; [reflexivity |].
  cbn [draws]. rewrite uniform_false.
  specialize (IH (set_engine st (schrage (idum st))
                    (<[Int 0 := schrage (idum st)]> (iv st)))).
  destruct (draws n start _) as [vs st2]. cbn [snd] in IH |- *.
  rewrite IH. cbn [iv set_engine]. apply lookup_insert_ne. congruence.
Qed.

Lemma draws_slot_0 (n : nat) (start : num) (st : state) :
  iv (snd (draws (S n) start st)) !! Int 0 = Some (idum (snd (draws (S n) start st))).
Proof.
  revert st. induction n as [| n IH]; intros st.
  - cbn [draws]. rewrite uniform_false. cbn [snd idum iv set_engine].
    apply lookup_insert_eq.
  - change (draws (S (S n)) start st)
      with (let '(v, st1) := uniform start false st in
            let '(vs, st2) := draws (S n) start st1 in (v :: vs, st2)).
    rewrite uniform_false.
    specialize (IH (set_engine st (schrage (idum st))
                      (<[Int 0 := schrage (idum st)]> (iv st)))).
    destruct (draws (S n) start _) as [vs st2]. exact IH.
Qed.

(** Continuation calls return the seeds themselves, one call late.  From a
    state whose seed and slot 0 hold NaN or integers of magnitude below 2^53
    (where the recurrence does not round), every later seed stays in that
    range; the first call returns slot 0 as it was left, the [k+1]-th
    returns the deviate of the seed advanced [k] times, whatever [start] is
    passed.  Only slot 0 of the table is read or written (it ends up holding
    the last seed); every other slot and property stays as it was. *)
Theorem continuation_stream (n : nat) (start : num) (st : state) :
  exact_engine st = true ->
  (forall k, exact_num (Nat.iter k schrage (idum st)) = true)
  /\ fst (draws (S n) start st)
     = deviate_of (iv st !! Int 0)
       :: map (fun k => deviate_of (Some (Nat.iter k schrage (idum st)))) (seq 1 n)
  /\ idum (snd (draws (S n) start st)) = Nat.iter (S n) schrage (idum st)
  /\ iv (snd (draws (S n) start st)) !! Int 0
     = Some (Nat.iter (S n) schrage (idum st))
  /\ (forall k, k <> Int 0 -> iv (snd (draws (S n) start st)) !! k = iv st !! k).
Proof.
  intros Hex. apply andb_true_iff in Hex. destruct Hex as [Hi0 _].
  split; [intros k; apply iter_schrage_exact, Hi0 |].
  destruct (draws_stream n start st) as [Hv Hi].
  split; [exact Hv |]. split; [exact Hi |]. split.
  - rewrite draws_slot_0, Hi. reflexivity.
  - intros k Hk. apply draws_table, Hk.
Qed.

Lemma continuation_stream_witness :
  let st := snd (uniform (Int (-5)) true constructor) in
  (forall k, exact_num (Nat.iter k schrage (idum st)) = true)
  /\ fst (draws 3 NaN st)
     = deviate_of (iv st !! Int 0)
       :: map (fun k => deviate_of (Some (Nat.iter k schrage (idum st)))) (seq 1 2)
  /\ idum (snd (draws 3 NaN st)) = Nat.iter 3 schrage (idum st)
  /\ iv (snd (draws 3 NaN st)) !! Int 0 = Some (Nat.iter 3 schrage (idum st))
  /\ (forall k, k <> Int 0 -> iv (snd (draws 3 NaN st)) !! k = iv st !! k).
Proof.
  intros st. apply (continuation_stream 2 NaN st). reflexivity.
Defined.

Lemma iter_schrageZ_after (k m : nat) (sd : Z) :
  - 2 ^ 53 < sd < 2 ^ 53 -> (6 <= m)%nat ->
  Nat.iter k schrageZ (Nat.iter m schrageZ sd)
  = (IA ^ Z.of_nat (m + k) * sd) mod IM.
Proof.
  intros Hsd Hm. rewrite <- Nat.iter_add.
  destruct (iter_schrageZ_pulled sd (k + m) Hsd ltac:(lia)) as [_ ->].
  replace (k + m)%nat with (m + k)%nat by lia. reflexivity.
Qed.

(** After an initialising call with an integer start value [sd] of
    magnitude below 2^53, the continuation calls from the second on are the
    plain Lehmer generator: call [k+1] returns the deviate of
    [16807^(41+k) * sd mod 2147483647].  The first continuation call
    returns the deviate of the 40th or of the 41st power. *)
Theorem lehmer_stream (sd : Z) (st : state) (n : nat) (start : num) :
  - 2 ^ 53 < sd < 2 ^ 53 ->
  exists d0,
    (d0 = deviate_of (Some (Int ((IA ^ 40 * sd) mod IM)))
     \/ d0 = deviate_of (Some (Int ((IA ^ 41 * sd) mod IM))))
    /\ fst (draws (S n) start (snd (uniform (Int sd) true st)))
       = d0 :: map (fun k => deviate_of
                               (Some (Int ((IA ^ Z.of_nat (41 + k) * sd) mod IM))))
                 (seq 1 n).
Proof.
  intros Hsd.
  assert (Hs : forall n, (8 <= n)%nat -> 0 <= Nat.iter n schrageZ sd < IM)
    by (intros k Hk; apply (iter_schrageZ_pulled sd k Hsd); lia).
  destruct (uniform_true_settled 0 sd st (or_introl eq_refl) Hs)
    as (y & j & Hj & _ & _ & _ & _ & Hi & Ht).
  destruct (draws_stream n start (snd (uniform (Int sd) true st))) as [Hd _].
  rewrite Hd, Hi. clear Hd.
  rewrite <- (Nat.iter_succ 40 schrageZ sd) in Ht |- *.
  exists (deviate_of (iv (snd (uniform (Int sd) true st)) !! Int 0)). split.
  - destruct Ht as [[_ ->] | [_ ->]]; [right | left]; do 3 f_equal.
    + destruct (iter_schrageZ_pulled sd 41 Hsd ltac:(lia)) as [_ ->]. reflexivity.
    + destruct (iter_schrageZ_pulled sd 40 Hsd ltac:(lia)) as [_ ->]. reflexivity.
  - f_equal. apply List.map_ext. intros k.
    rewrite iter_schrage_Int, (iter_schrageZ_after k 41 sd Hsd) by lia. reflexivity.
Qed.

Lemma lehmer_stream_witness :
  exists d0,
    (d0 = deviate_of (Some (Int ((IA ^ 40 * 90210) mod IM)))
     \/ d0 = deviate_of (Some (Int ((IA ^ 41 * 90210) mod IM))))
    /\ fst (draws 4 (Int 90210) (snd (uniform (Int 90210) true constructor)))
       = d0 :: map (fun k => deviate_of
                               (Some (Int ((IA ^ Z.of_nat (41 + k) * 90210) mod IM))))
                 (seq 1 3).
Proof.
  apply (lehmer_stream 90210 constructor 3 (Int 90210)). split; reflexivity.
Defined.

(** ** A NaN start value *)

Lemma deviate_of_NaN : deviate_of (Some NaN) = nan.
Proof. vm_compute. reflexivity. Qed.

Lemma deviate_of_undefined : deviate_of None = nan.
Proof. vm_compute. reflexivity. Qed.

Lemma constructor_nan_slot_clean : nan_slot_clean constructor.
Proof. left. reflexivity. Qed.

Lemma uniform_init_nan_slot (start : num) (st : state) :
  iv (fst (uniform_init start st)) !! NaN = iv st !! NaN.
Proof.
  rewrite uniform_init_rest by (intros i _; discriminate). reflexivity.
Qed.

Lemma uniform_nan_slot_clean (start : num) (init : bool) (st : state) :
  nan_slot_clean st -> nan_slot_clean (snd (uniform start init st)).
Proof.
  intros Hc. unfold nan_slot_clean in *. destruct init.
  - rewrite uniform_true, uniform_init_carry. unfold uniform_draw.
    cbn [snd iv set_engine ToNumber]. rewrite uniform_init_idum.
    destruct start as [| z].
    + rewrite !iter_schrage_NaN. cbn [table_index schrage].
      right. apply lookup_insert_eq.
    + rewrite !iter_schrage_Int. cbn [table_index schrage].
      rewrite lookup_insert_ne by discriminate.
      rewrite uniform_init_nan_slot. exact Hc.
  - rewrite uniform_false. cbn [snd iv set_engine].
    rewrite lookup_insert_ne by discriminate. exact Hc.
Qed.

Lemma run_nan_slot_clean (calls : list (num * bool)) (st : state) :
  nan_slot_clean st -> nan_slot_clean (snd (run calls st)).
Proof.
  revert st. induction calls as [| [start init] calls IH]; intros st Hc; [exact Hc |].
  cbn [run].
  pose proof (uniform_nan_slot_clean start init st Hc) as Hc'.
  destruct (uniform start init st) as [v st']. cbn [snd] in Hc'.
  specialize (IH st' Hc'). destruct (run calls st') as [vs st'']. exact IH.
Qed.

Lemma nan_draws (n : nat) (start : num) (st : state) :
  idum st = NaN -> iv st !! Int 0 = Some NaN ->
  Forall (fun v => v = nan) (fst (draws n start st))
  /\ idum (snd (draws n start st)) = NaN.
Proof.
  revert st. induction n as [| n IH]; intros st Hi Ht; cbn [draws].
  - split; [constructor | exact Hi].
  - rewrite uniform_false, Hi.
    specialize (IH (set_engine st (schrage NaN) (<[Int 0 := schrage NaN]> (iv st)))).
    cbn [idum iv set_engine] in IH. rewrite lookup_insert_eq in IH.
    specialize (IH eq_refl eq_refl).
    destruct (draws n start _) as [vs st'']. cbn [fst snd] in *.
    destruct IH as [IH1 IH2]. split; [| exact IH2].
    constructor; [rewrite Ht; apply deviate_of_NaN | exact IH1].
Qed.

(** A NaN start value is not replaced either: on an instance reached from
    the constructor by any sequence of calls, [uniform(NaN, true)] returns
    NaN, every continuation call after it returns NaN, and the seed stays
    NaN (until a later initialising call with a number). *)
Theorem nan_seed_poisons (calls : list (num * bool)) (n : nat) (start : num) :
  let st := snd (run calls constructor) in
  fst (uniform NaN true st) = nan
  /\ Forall (fun v => v = nan) (fst (draws n start (snd (uniform NaN true st))))
  /\ idum (snd (draws n start (snd (uniform NaN true st)))) = NaN.
Proof.
  intros st.
  pose proof (run_nan_slot_clean calls constructor constructor_nan_slot_clean) as Hc.
  fold st in Hc.
  assert (H : fst (uniform NaN true st) = nan
              /\ idum (snd (uniform NaN true st)) = NaN
              /\ iv (snd (uniform NaN true st)) !! Int 0 = Some NaN).
  { rewrite uniform_true, uniform_init_carry. unfold uniform_draw.
    cbn [fst snd idum iv set_engine ToNumber].
    rewrite uniform_init_idum, !iter_schrage_NaN. cbn [table_index schrage].
    rewrite uniform_init_nan_slot. split; [| split].
    - destruct Hc as [-> | ->]; [apply deviate_of_undefined | apply deviate_of_NaN].
    - reflexivity.
    - rewrite lookup_insert_ne by discriminate.
      change (Int 0) with (Int (Z.of_nat 0)).
      rewrite uniform_init_slot by lia. rewrite iter_schrage_NaN. reflexivity. }
  destruct H as (Hv & Hi & Ht). split; [exact Hv |].
  apply nan_draws; assumption.
Qed.

(** * The transforms on top of the engine *)

Lemma pos_nonzero (x : float) : (0 <? x)%float = true -> (x =? 0.0)%float = false.
Proof.
  rewrite FloatAxioms.ltb_spec, FloatAxioms.eqb_spec.
  change (Prim2SF 0.0%float) with (Prim2SF 0%float). rewrite Prim2SF_zero.
  destruct (Prim2SF x) as [t | [|] | | [|] m e]; cbn; congruence.
Qed.

Lemma zero_source_uniform (start : num) (init : bool) (st : state) :
  zero_source start init st ->
  fst (uniform start init st) = 0%float
  /\ zero_source start init (snd (uniform start init st)).
Proof.
  destruct init; cbn [zero_source]; intros H.
  - destruct (dead_seed_spec start H) as (sd & -> & Hsd & Hm).
    destruct (dead_seed_uniform_true sd st Hsd Hm) as [Hv _]. auto.
  - apply stalled_uniform_false, H.
Qed.

Lemma zero_source_adopt (start : num) (init : bool) (mu sig : float) (st : state) :
  zero_source start init st -> zero_source start init (adopt_mean_sd mu sig st).
Proof. destruct init; exact (fun H => H). Qed.

Section TransformRuns.

Variable Math_log : float -> float.

Lemma exponential_loop_hangs (fuel : nat) (start : num) (init : bool)
    (tmp : float) (st : state) :
  zero_source start init st -> (tmp =? 0.0)%float = true ->
  exponential_loop fuel start init tmp st = None.
Proof.
  revert tmp st. induction fuel as [| fuel IH]; intros tmp st Hz Ht;
    cbn [exponential_loop]; rewrite Ht; [reflexivity |].
  destruct (zero_source_uniform start init st Hz) as [Hv Hz'].
  destruct (uniform start init st) as [v st']. cbn [fst snd] in Hv, Hz'.
  apply IH; [exact Hz' | rewrite Hv; reflexivity].
Qed.

Lemma logistic_loop_hangs (fuel : nat) (start : num) (init : bool)
    (v : float) (st : state) :
  zero_source start init st -> logistic_rejects v = true ->
  logistic_loop fuel start init v st = None.
Proof.
  unfold logistic_rejects.
  revert v st. induction fuel as [| fuel IH]; intros v st Hz Ht;
    cbn [logistic_loop]; rewrite Ht; [reflexivity |].
  destruct (zero_source_uniform start init st Hz) as [Hv Hz'].
  destruct (uniform start init st) as [v' st']. cbn [fst snd] in Hv, Hz'.
  apply IH; [exact Hz' | rewrite Hv; reflexivity].
Qed.

Lemma normal_loop_hangs (fuel : nat) (start : num) (init : bool)
    (v1 v2 rsq : float) (st : state) :
  zero_source start init st -> normal_rejects rsq = true ->
  normal_loop fuel start init v1 v2 rsq st = None.
Proof.
  unfold normal_rejects.
  revert v1 v2 rsq st. induction fuel as [| fuel IH]; intros v1 v2 rsq st Hz Ht;
    cbn [normal_loop]; rewrite Ht; [reflexivity |].
  destruct (zero_source_uniform start init st Hz) as [Hv Hz'].
  destruct (uniform start init st) as [x1 st1]. cbn [fst snd] in Hv, Hz'.
  destruct (zero_source_uniform start init st1 Hz') as [Hv' Hz''].
  destruct (uniform start init st1) as [x2 st2]. cbn [fst snd] in Hv', Hz''.
  apply IH; [exact Hz'' | rewrite Hv, Hv'; reflexivity].
Qed.

(** With a stalled engine the retry loops never end: after a start value
    that is a multiple of [IM] (0 included), [exponential], [logistic] and
    [normal] (with an empty cache) exhaust every bound on their iterations,
    both in the call that initialises and in continuation calls after it. *)
Theorem dead_seed_hangs (x : num) (mu sig : float) (st : state) :
  dead_seed x = true ->
  (forall fuel,
     exponential Math_log fuel x true st = None
     /\ logistic Math_log fuel x mu sig true st = None
     /\ (cache_empty st = true -> normal Math_log fuel x mu sig true st = None))
  /\ (forall fuel start,
        let st1 := snd (uniform x true st) in
        exponential Math_log fuel start false st1 = None
        /\ logistic Math_log fuel start mu sig false st1 = None
        /\ (cache_empty st = true ->
            normal Math_log fuel start mu sig false st1 = None)).
Proof.
  intros Hx.
  assert (G : forall start init st0, zero_source start init st0 ->
            forall fuel,
              exponential Math_log fuel start init st0 = None
              /\ logistic Math_log fuel start mu sig init st0 = None
              /\ (cache_empty st0 = true ->
                  normal Math_log fuel start mu sig init st0 = None)).
  { intros start init st0 Hz fuel.
    assert (Hz' : zero_source start init
                    (if init then adopt_mean_sd mu sig st0 else st0))
      by (destruct init; [apply zero_source_adopt |]; exact Hz).
    split; [| split].
    - unfold exponential.
      rewrite exponential_loop_hangs by (exact Hz || reflexivity). reflexivity.
    - unfold logistic.
      rewrite logistic_loop_hangs by (exact Hz' || reflexivity). reflexivity.
    - intros Hc. unfold normal.
      assert (E : cache_empty (if init then adopt_mean_sd mu sig st0 else st0) = true)
        by (destruct init; exact Hc).
      rewrite E, normal_loop_hangs by (exact Hz' || reflexivity). reflexivity. }
  split.
  - intros fuel. apply (G x true st Hx).
  - intros fuel start st1.
    destruct (dead_seed_spec x Hx) as (sd & -> & Hsd & Hm).
    destruct (dead_seed_uniform_true sd st Hsd Hm) as [_ Hst].
    destruct (G start false st1 Hst fuel) as (H1 & H2 & H3).
    split; [exact H1 |]. split; [exact H2 |].
    intros Hc. apply H3.
    unfold cache_empty in *. subst st1.
    rewrite (proj1 (uniform_fields (Int sd) true st)). exact Hc.
Qed.

Lemma exponential_first_positive (fuel : nat) (start : num) (init : bool)
    (st : state) :
  (0 <? fst (uniform start init st))%float = true ->
  exponential Math_log (S fuel) start init st
  = Some ((- Math_log (fst (uniform start init st)))%float,
          snd (uniform start init st)).
Proof.
  intros Hp. apply pos_nonzero in Hp.
  unfold exponential. cbn [exponential_loop].
  change (0.0 =? 0.0)%float with true. cbn iota.
  destruct (uniform start init st) as [v st']. cbn [fst snd] in Hp |- *.
  destruct fuel; cbn [exponential_loop]; rewrite Hp; reflexivity.
Qed.

(** [exponential] never retries on an engine that was seeded with a start
    value that is not a multiple of [IM]: it consumes exactly one uniform
    draw [v], which is positive, and returns [-Math.log(v)]; any bound of at
    least one iteration suffices. *)
Theorem exponential_one_draw (fuel : nat) :
  (forall x st,
     live_seed x = true ->
     exponential Math_log (S fuel) x true st
     = Some ((- Math_log (fst (uniform x true st)))%float, snd (uniform x true st))
     /\ (0 <? fst (uniform x true st))%float = true)
  /\ (forall calls st0 start,
        starts_with_init calls = true ->
        init_seeds live_seed calls = true ->
        let st := snd (run calls st0) in
        exponential Math_log (S fuel) start false st
        = Some ((- Math_log (fst (uniform start false st)))%float,
                snd (uniform start false st))
        /\ (0 <? fst (uniform start false st))%float = true).
Proof.
  assert (P : forall y, 1 <= y < IM -> (0 <? deviate_of (Some (Int y)))%float = true).
  { intros y Hy. apply deviate_of_pos.
    change (2 ^ 53) with 9007199254740992. unfold IM in Hy. lia. }
  split.
  - intros x st Hx. destruct (live_seed_settles x Hx) as (sd & -> & Hs).
    destruct (uniform_true_settled_in 1 sd st (or_intror eq_refl) Hs)
      as [(y & Hv & Hy) _].
    assert (Hp : (0 <? fst (uniform (Int sd) true st))%float = true)
      by (rewrite Hv; apply P, Hy).
    split; [apply exponential_first_positive, Hp | exact Hp].
  - intros calls st0 start Hfirst Hseeds st.
    destruct (run_settled 1 live_seed calls st0 (or_intror eq_refl) live_seed_settles
                (or_intror Hfirst) Hseeds) as [_ Hin].
    destruct (uniform_false_in 1 start st (or_intror eq_refl) Hin) as [(y & Hv & Hy) _].
    assert (Hp : (0 <? fst (uniform start false st))%float = true)
      by (rewrite Hv; apply P, Hy).
    split; [apply exponential_first_positive, Hp | exact Hp].
Qed.

End TransformRuns.

Lemma exponential_one_draw_witness :
  exponential tangent_log 1 (Int (-5)) true constructor
  = Some ((- tangent_log (fst (uniform (Int (-5)) true constructor)))%float,
          snd (uniform (Int (-5)) true constructor))
  /\ (0 <? fst (uniform (Int (-5)) true constructor))%float = true.
Proof.
  apply (proj1 (exponential_one_draw tangent_log 0)). reflexivity.
Defined.

Lemma dead_seed_hangs_witness :
  exponential tangent_log 5 (Int 0) true constructor = None
  /\ logistic tangent_log 5 (Int 0) 0.0 1.0 true constructor = None
  /\ (cache_empty constructor = true ->
      normal tangent_log 5 (Int 0) 0.0 1.0 true constructor = None).
Proof.
  apply (proj1 (dead_seed_hangs tangent_log (Int 0) 0.0 1.0 constructor eq_refl) 5%nat).
Defined.

(** ** Calls with [init = true] *)

Lemma first_draw_any_state (sd : Z) (st : state) :
  - 2 ^ 53 < sd < 2 ^ 53 ->
  fst (uniform (Int sd) true st) = fst (uniform (Int sd) true constructor).
Proof.
  intros Hsd.
  exact (proj1 (uniform_true_congruent sd sd st constructor Hsd Hsd eq_refl)).
Qed.

Section InitTrue.

Variable Math_log : float -> float.

Lemma normal_loop_init_true (sd : Z) (fuel : nat) (v1 v2 rsq : float) (st : state) :
  - 2 ^ 53 < sd < 2 ^ 53 ->
  normal_rejects rsq = true ->
  let w := (2.0 * fst (uniform (Int sd) true constructor) - 1.0)%float in
  let q := (w * w + w * w)%float in
  normal_loop (S fuel) (Int sd) true v1 v2 rsq st
  = normal_loop fuel (Int sd) true w w q
      (snd (uniform (Int sd) true (snd (uniform (Int sd) true st)))).
Proof.
  intros Hsd Hr w q. unfold normal_rejects in Hr.
  cbn [normal_loop]. rewrite Hr.
  pose proof (first_draw_any_state sd st Hsd) as E1.
  destruct (uniform (Int sd) true st) as [x1 st1]. cbn [fst snd] in E1 |- *.
  pose proof (first_draw_any_state sd st1 Hsd) as E2.
  destruct (uniform (Int sd) true st1) as [x2 st2]. cbn [fst snd] in E2 |- *.
  subst x1 x2. reflexivity.
Qed.

Lemma normal_loop_init_true_rejects (sd : Z) (fuel : nat) (v1 v2 rsq : float)
    (st : state) :
  - 2 ^ 53 < sd < 2 ^ 53 ->
  let w := (2.0 * fst (uniform (Int sd) true constructor) - 1.0)%float in
  normal_rejects (w * w + w * w)%float = true ->
  normal_rejects rsq = true ->
  normal_loop fuel (Int sd) true v1 v2 rsq st = None.
Proof.
  intros Hsd w Hq. revert v1 v2 rsq st.
  induction fuel as [| fuel IH]; intros v1 v2 rsq st Hr.
  - cbn [normal_loop]. unfold normal_rejects in Hr. rewrite Hr. reflexivity.
  - rewrite normal_loop_init_true by assumption. apply IH, Hq.
Qed.

(** In a call [normal(sd, mu, sig, true)] both uniform draws of a pair
    re-initialise the engine and are the same number [u0], the first draw of
    [sd].  So with an empty cache the call either rejects every pair and
    exhausts every bound (when [rsq = 2*(2*u0 - 1)^2] fails the loop test),
    or accepts the first pair, returns [u + s*w*fac] for [w = 2*u0 - 1] and
    caches the same [w*fac]. *)
Theorem normal_init_true (sd : Z) (mu sig : float) (st : state) :
  - 2 ^ 53 < sd < 2 ^ 53 ->
  cache_empty st = true ->
  let w := (2.0 * fst (uniform (Int sd) true constructor) - 1.0)%float in
  let q := (w * w + w * w)%float in
  let fac := PrimFloat.sqrt (-2.0 * Math_log q / q)%float in
  if normal_rejects q then
    forall fuel, normal Math_log fuel (Int sd) mu sig true st = None
  else
    forall fuel, exists st',
      normal Math_log (S fuel) (Int sd) mu sig true st
      = Some ((u (adopt_mean_sd mu sig st) + s (adopt_mean_sd mu sig st) * w * fac)%float,
              st')
      /\ normVal st' = (w * fac)%float.
Proof.
  intros Hsd Hc w q fac.
  assert (E : cache_empty (adopt_mean_sd mu sig st) = true) by exact Hc.
  destruct (normal_rejects q) eqn:Hq.
  - intros fuel. unfold normal. rewrite E.
    rewrite (normal_loop_init_true_rejects sd fuel) by (assumption || reflexivity).
    reflexivity.
  - intros fuel. unfold normal. rewrite E.
    rewrite normal_loop_init_true by (assumption || reflexivity).
    fold w. fold q.
    assert (L : forall st0, normal_loop fuel (Int sd) true w w q st0 = Some (w, w, q, st0)).
    { intros st0. unfold normal_rejects in Hq.
      destruct fuel; cbn [normal_loop]; rewrite Hq; reflexivity. }
    rewrite L.
    set (st2 := snd (uniform (Int sd) true
                       (snd (uniform (Int sd) true (adopt_mean_sd mu sig st))))).
    assert (F : u st2 = u (adopt_mean_sd mu sig st) /\ s st2 = s (adopt_mean_sd mu sig st)).
    { subst st2.
      destruct (uniform_fields (Int sd) true
                  (snd (uniform (Int sd) true (adopt_mean_sd mu sig st))))
        as (_ & Hu2 & Hs2 & _).
      destruct (uniform_fields (Int sd) true (adopt_mean_sd mu sig st))
        as (_ & Hu1 & Hs1 & _).
      split; congruence. }
    destruct F as [Fu Fs].
    exists (set_normVal st2 (w * fac)%float).
    split; [| reflexivity].
    cbn [u s set_normVal]. rewrite Fu, Fs. reflexivity.
Qed.

Lemma logistic_loop_init_true (sd : Z) (fuel : nat) (v : float) (st : state) :
  - 2 ^ 53 < sd < 2 ^ 53 ->
  logistic_rejects v = true ->
  logistic_loop (S fuel) (Int sd) true v st
  = logistic_loop fuel (Int sd) true (fst (uniform (Int sd) true constructor))
      (snd (uniform (Int sd) true st)).
Proof.
  intros Hsd Hr. unfold logistic_rejects in Hr.
  cbn [logistic_loop]. rewrite Hr.
  pose proof (first_draw_any_state sd st Hsd) as E1.
  destruct (uniform (Int sd) true st) as [x1 st1]. cbn [fst snd] in E1 |- *.
  subst x1. reflexivity.
Qed.

(** A call [logistic(sd, mu, sig, true)] is a function of the first draw
    [u0] of [sd] alone: it exhausts every bound when [u0*(1 - u0) == 0], and
    otherwise returns [u + 0.5513...*s*Math.log(u0/(1 - u0))] after one
    draw. *)
Theorem logistic_init_true (sd : Z) (mu sig : float) (st : state) :
  - 2 ^ 53 < sd < 2 ^ 53 ->
  let v := fst (uniform (Int sd) true constructor) in
  if logistic_rejects v then
    forall fuel, logistic Math_log fuel (Int sd) mu sig true st = None
  else
    forall fuel,
      logistic Math_log (S fuel) (Int sd) mu sig true st
      = Some ((u (adopt_mean_sd mu sig st)
               + 0.551328895421792050 * s (adopt_mean_sd mu sig st)
                 * Math_log (v / (1.0 - v)))%float,
              snd (uniform (Int sd) true (adopt_mean_sd mu sig st))).
Proof.
  intros Hsd v. destruct (logistic_rejects v) eqn:Hv.
  - intros fuel. unfold logistic.
    assert (L : forall fuel v0 st0, logistic_rejects v0 = true ->
              logistic_loop fuel (Int sd) true v0 st0 = None).
    { clear fuel. induction fuel as [| fuel IH]; intros v0 st0 H0.
      - cbn [logistic_loop]. unfold logistic_rejects in H0. rewrite H0. reflexivity.
      - rewrite logistic_loop_init_true by assumption. apply IH, Hv. }
    rewrite L by reflexivity. reflexivity.
  - intros fuel. unfold logistic.
    rewrite logistic_loop_init_true by (assumption || reflexivity). fold v.
    assert (L : forall st0, logistic_loop fuel (Int sd) true v st0 = Some (v, st0)).
    { intros st0. unfold logistic_rejects in Hv.
      destruct fuel; cbn [logistic_loop]; rewrite Hv; reflexivity. }
    rewrite L.
    destruct (uniform_fields (Int sd) true (adopt_mean_sd mu sig st))
      as (_ & Hu1 & Hs1 & _).
    rewrite Hu1, Hs1. reflexivity.
Qed.

End InitTrue.

Lemma normal_init_true_witness :
  let w := (2.0 * fst (uniform (Int 1) true constructor) - 1.0)%float in
  let q := (w * w + w * w)%float in
  let fac := PrimFloat.sqrt (-2.0 * tangent_log q / q)%float in
  - 2 ^ 53 < 1 < 2 ^ 53
  /\ cache_empty constructor = true
  /\ normal_rejects q = false
  /\ forall fuel, exists st',
       normal tangent_log (S fuel) (Int 1) 0.5 0.2 true constructor
       = Some ((u (adopt_mean_sd 0.5 0.2 constructor)
                + s (adopt_mean_sd 0.5 0.2 constructor) * w * fac)%float, st')
       /\ normVal st' = (w * fac)%float.
Proof.
  intros w q fac.
  split; [split; reflexivity |]. split; [reflexivity |]. split; [reflexivity |].
  exact (normal_init_true tangent_log 1 0.5 0.2 constructor
           ltac:(split; reflexivity) eq_refl).
Defined.

Lemma logistic_init_true_witness :
  - 2 ^ 53 < 1 < 2 ^ 53
  /\ logistic tangent_log 1 (Int 1) 0.0 1.0 true constructor
     = Some ((u (adopt_mean_sd 0.0 1.0 constructor)
              + 0.551328895421792050 * s (adopt_mean_sd 0.0 1.0 constructor)
                * tangent_log (fst (uniform (Int 1) true constructor)
                               / (1.0 - fst (uniform (Int 1) true constructor))))%float,
             snd (uniform (Int 1) true (adopt_mean_sd 0.0 1.0 constructor))).
Proof.
  split; [split; reflexivity |].
  exact ((logistic_init_true tangent_log 1 0.0 1.0 constructor ltac:(split; reflexivity)
          : forall fuel,
              logistic tangent_log (S fuel) (Int 1) 0.0 1.0 true constructor
              = Some ((u (adopt_mean_sd 0.0 1.0 constructor)
                       + 0.551328895421792050 * s (adopt_mean_sd 0.0 1.0 constructor)
                         * tangent_log (fst (uniform (Int 1) true constructor)
                                        / (1.0 - fst (uniform (Int 1) true constructor))))%float,
                      snd (uniform (Int 1) true (adopt_mean_sd 0.0 1.0 constructor))))
           0%nat).
Defined.

(** ** Adopted parameters *)

Lemma SFcompare_antisym (x y : spec_float) :
  SFcompare y x = option_map CompOpp (SFcompare x y).
Proof.
  destruct x as [s1 | s1 | | s1 m1 e1], y as [s2 | s2 | | s2 m2 e2];
    try reflexivity; try (destruct s1; reflexivity); try (destruct s2; reflexivity);
    try (destruct s1, s2; reflexivity).
  unfold SFcompare.
  destruct s1, s2; try reflexivity; cbn [option_map]; f_equal;
    rewrite (Z.compare_antisym e1 e2);
    destruct (e1 ?= e2); cbn [CompOpp]; try reflexivity.
  - rewrite (Pos.compare_cont_antisym m1 m2 Eq). reflexivity.
  - rewrite (Pos.compare_cont_antisym m1 m2 Eq). reflexivity.
Qed.

Lemma SFcompare_None (x y : spec_float) :
  SFcompare x y = None -> x = S754_nan \/ y = S754_nan.
Proof.
  destruct x as [s1 | s1 | | s1 m1 e1], y as [s2 | s2 | | s2 m2 e2];
    cbn; auto; discriminate.
Qed.

(** On numbers, "not below" is "at or above". *)
Lemma not_ltb_leb (x y : float) :
  isNaN_f x = false -> isNaN_f y = false ->
  (x <? y)%float = false -> (y <=? x)%float = true.
Proof.
  intros Hx Hy. rewrite FloatAxioms.ltb_spec, FloatAxioms.leb_spec.
  unfold SFltb, SFleb. rewrite (SFcompare_antisym (Prim2SF x) (Prim2SF y)).
  destruct (SFcompare (Prim2SF x) (Prim2SF y)) as [[| |] |] eqn:E;
    cbn; try reflexivity; try discriminate.
  intros _. exfalso. apply SFcompare_None in E.
  destruct E as [E | E]; apply isNaN_f_spec in E; congruence.
Qed.

(** Whatever is passed, the mean that [normal] and [logistic] adopt is a
    number at or above 0, and the standard deviation they adopt for a
    number is above 0: zero and negative values are never adopted. *)
Theorem adopted_mean_sd_valid (mu sig : float) (st : state) :
  (0 <=? u (adopt_mean_sd mu sig st))%float = true
  /\ (isNaN_f (s (adopt_mean_sd mu sig st)) = true
      \/ (0 <? s (adopt_mean_sd mu sig st))%float = true)
  /\ (isNaN_f sig = false -> (0 <? s (adopt_mean_sd mu sig st))%float = true).
Proof.
  cbn [adopt_mean_sd u s set_u_s]. split; [| split].
  - destruct (isNaN_f mu) eqn:Hn; [reflexivity |].
    destruct (mu <? 0)%float eqn:Hl; [reflexivity |]. cbn [orb].
    apply not_ltb_leb; [exact Hn | reflexivity | exact Hl].
  - destruct (isNaN_f sig) eqn:Hn; [left; exact Hn |].
    destruct (0 <? sig)%float eqn:Hl; cbn [orb]; right; [exact Hl | reflexivity].
  - intros Hn. rewrite Hn.
    destruct (0 <? sig)%float eqn:Hl; cbn [orb]; [exact Hl | reflexivity].
Qed.

Lemma gamma_redraw_fields (fuel : nat) (start : num) (init : bool)
    (v x : float) (st : state) v' x' st' :
  gamma_redraw fuel start init v x st = Some (v', x', st') ->
  a st' = a st /\ b st' = b st /\ a1 st' = a1 st /\ a2 st' = a2 st.
Proof.
  revert v x st. induction fuel as [| fuel IH]; intros v x st; cbn [gamma_redraw].
  - destruct (v <=? 0.0)%float; [discriminate |].
    intros [= <- <- <-]. repeat split.
  - destruct (v <=? 0.0)%float.
    + pose proof (uniform_fields start init st) as F.
      destruct (uniform start init st) as [x1 st1]. cbn [snd] in F.
      intros H. apply IH in H. intuition congruence.
    + intros [= <- <- <-]. repeat split.
Qed.

Lemma gamma_body_fields (fuel : nat) (start : num) (init : bool)
    (l : float * float * float * float) (st : state) l' st' :
  gamma_body fuel start init l st = Some (l', st') ->
  a st' = a st /\ b st' = b st /\ a1 st' = a1 st /\ a2 st' = a2 st.
Proof.
  destruct l as [[[u0 v0] x0] q0]. unfold gamma_body.
  destruct (gamma_redraw fuel start init v0 x0 st) as [[[v1 x1] st1] |] eqn:E;
    [| discriminate].
  apply gamma_redraw_fields in E.
  pose proof (uniform_fields start init st1) as F.
  destruct (uniform start init st1) as [u1 st2]. cbn [snd] in F.
  intros [= <- <-]. intuition congruence.
Qed.

Section GammaParameters.

Variable Math_log : float -> float.

Lemma gamma_loop_fields (fuel inner : nat) (start : num) (init : bool)
    (l : float * float * float * float) (st : state) l' st' :
  gamma_loop Math_log fuel inner start init l st = Some (l', st') ->
  a st' = a st /\ b st' = b st /\ a1 st' = a1 st /\ a2 st' = a2 st.
Proof.
  revert l st. induction fuel as [| fuel IH]; intros [[[u0 v0] x0] q0] st;
    cbn [gamma_loop].
  - destruct (gamma_continue Math_log st u0 v0 q0); [discriminate |].
    intros [= <- <-]. repeat split.
  - destruct (gamma_continue Math_log st u0 v0 q0).
    + destruct (gamma_body inner start init (u0, v0, x0, q0) st) as [[l1 st1] |] eqn:E;
        [| discriminate].
      apply gamma_body_fields in E.
      intros H. apply IH in H. intuition congruence.
    + intros [= <- <-]. repeat split.
Qed.

(** [gamma] adopts its parameters when [start] is truthy, whatever [init]
    says: with [start] 0 or NaN a call keeps [a], [b], [a1] and [a2] as they
    were, even with [init = true]; with any other [start] it derives them
    anew from [alpha] and [beta], even with [init = false], and the rate [b]
    it adopts is always a number at or above 0.0001. *)
Theorem gamma_adopts_on_truthy_start
    (fuel inner : nat) (start : num) (alpha beta : float) (init : bool)
    (st : state) (r : float) (st' : state) :
  gamma Math_log fuel inner start alpha beta init st = Some (r, st') ->
  (truthy start = false ->
   a st' = a st /\ b st' = b st /\ a1 st' = a1 st /\ a2 st' = a2 st)
  /\ (truthy start = true ->
      a st' = a (gamma_params alpha beta st)
      /\ b st' = b (gamma_params alpha beta st)
      /\ a1 st' = (a st' - 1.0 / 3.0)%float
      /\ a2 st' = (1.0 / PrimFloat.sqrt (9.0 * a1 st'))%float
      /\ (0.0001 <=? b st')%float = true).
Proof.
  unfold gamma. intros H.
  destruct (gamma_loop Math_log fuel inner start init
              (10.0%float, 0.0%float, 0.0%float, 0.0%float)
              (if truthy start then gamma_params alpha beta st else st))
    as [[[[[u0 v0] x0] q0] st1] |] eqn:E; [| discriminate].
  apply gamma_loop_fields in E as (Ea & Eb & Ea1 & Ea2).
  injection H as _ <-.
  split; intros Ht; rewrite Ht in *.
  - auto.
  - rewrite Ea, Eb, Ea1, Ea2. cbn [gamma_params a b a1 a2 set_gamma].
    repeat split.
    destruct (isNaN_f beta) eqn:Hn; [reflexivity |].
    destruct (beta <? 0.0001)%float eqn:Hl; [reflexivity |]. cbn [orb].
    apply not_ltb_leb; [exact Hn | reflexivity | exact Hl].
Qed.

End GammaParameters.

Lemma adopted_mean_sd_valid_witness :
  (0 <? s (adopt_mean_sd (-3.0) (-2.0) constructor))%float = true.
Proof.
  apply (proj2 (proj2 (adopted_mean_sd_valid (-3.0) (-2.0) constructor))). reflexivity.
Defined.

Lemma gamma_adopts_on_truthy_start_witness :
  let call := gamma tangent_log 5 5 (Int 0) 2.0 1.0 true constructor in
  a (state_after call) = a constructor /\ b (state_after call) = b constructor
  /\ a1 (state_after call) = a1 constructor /\ a2 (state_after call) = a2 constructor.
Proof.
  intros call.
  apply (proj1 (gamma_adopts_on_truthy_start tangent_log 5 5 (Int 0) 2.0 1.0 true
                  constructor (deviate_after call) (state_after call)
                  ltac:(vm_compute; reflexivity))).
  reflexivity.
Defined.

(** ** [logistic] never retries on a live engine *)

Lemma binary_round_aux_exp (sx : bool) (m : positive) (e : Z) (l : location)
    (t : bool) (m' : positive) (e' : Z) :
  binary_round_aux prec emax sx (Zpos m) e l = S754_finite t m' e' -> e <= e'.
Proof.
  unfold binary_round_aux, shr_fexp.
  set (n1 := fexp prec emax (Zdigits2 (Z.pos m) + e) - e).
  pose proof (shr_exp (shr_record_of_loc (Zpos m) l) e n1) as E1.
  destruct (shr (shr_record_of_loc (Z.pos m) l) e n1) as [mrs' e1].
  cbn [snd] in E1.
  set (m2 := round_nearest_even (shr_m mrs') (loc_of_shr_record mrs')).
  set (n2 := fexp prec emax (Zdigits2 m2 + e1) - e1).
  pose proof (shr_exp (shr_record_of_loc m2 loc_Exact) e1 n2) as E2.
  destruct (shr (shr_record_of_loc m2 loc_Exact) e1 n2) as [mrs'' e2].
  cbn [snd] in E2.
  destruct (shr_m mrs'') as [| p | p]; try discriminate.
  destruct (e2 <=? emax - prec); [| discriminate].
  intros [= _ _ <-]. lia.
Qed.

Lemma valid_digits (t : bool) (m : positive) (e : Z) (x : float) :
  Prim2SF x = S754_finite t m e ->
  Zpos (digits2_pos m) <= 53 /\ - 1074 <= e.
Proof.
  intros Hx. pose proof (Prim2SF_valid x) as Hv. rewrite Hx in Hv.
  unfold SpecFloat.valid_binary, bounded, canonical_mantissa in Hv.
  apply andb_true_iff in Hv as [Hc _]. apply Z.eqb_eq in Hc.
  unfold fexp, SpecFloat.emin in Hc.
  change prec with 53 in Hc. change emax with 1024 in Hc. lia.
Qed.

(** The deviate of a table entry [1 <= y < IM] is a positive finite number
    at or below [RNMX], with an exponent far above the subnormal range. *)
Lemma deviate_of_finite (y : Z) :
  1 <= y < IM ->
  exists m e,
    Prim2SF (deviate_of (Some (Int y))) = S754_finite false m e
    /\ - 135 <= e <= - 53
    /\ (e = - 53 -> (m <= 9007198173877081)%positive).
Proof.
  intros Hy. unfold deviate_of. cbn [ToNumber float_of_num].
  assert (Hy' : 1 <= y < 2 ^ 53)
    by (change (2 ^ 53) with 9007199254740992; unfold IM in Hy; lia).
  destruct (RNMX <? AM * float_of_Z y)%float eqn:E.
  - exists 9007198173877081%positive, (-53). rewrite Prim2SF_RNMX.
    split; [reflexivity |]. split; [lia |]. intros _. reflexivity.
  - rewrite FloatAxioms.ltb_spec, Prim2SF_RNMX in E.
    pose proof (AM_mul_sign y ltac:(lia)) as Hs.
    pose proof (fun t => AM_mul_nonzero y t Hy') as Hz.
    assert (Hexp : forall t m e,
              Prim2SF (AM * float_of_Z y)%float = S754_finite t m e -> - 135 <= e).
    { intros t m e Hf. rewrite FloatAxioms.mul_spec, Prim2SF_AM in Hf.
      destruct (float_of_Z_finite y Hy') as (my & ey & Hfy & Hd).
      pose proof (valid_digits _ _ _ _ Hfy) as [Hdig _].
      rewrite Hfy in Hf. unfold SF64mul, SFmul in Hf.
      apply binary_round_aux_exp in Hf. lia. }
    destruct (Prim2SF (AM * float_of_Z y)%float) as [t | t | | t m e] eqn:F.
    + exfalso. apply (Hz t). reflexivity.
    + cbn in Hs. subst t. discriminate E.
    + contradiction.
    + cbn in Hs. subst t. exists m, e. split; [reflexivity |].
      specialize (Hexp false m e eq_refl).
      unfold SFltb, SFcompare in E.
      destruct (Z.compare_spec (-53) e) as [He | Hlt | Hgt].
      * subst e. split; [lia |]. intros _.
        rewrite Pos.compare_cont_spec in E.
        destruct (Pos.compare_spec 9007198173877081 m) as [Heq | Hlt | Hgt];
          cbn [Pos.switch_Eq] in E;
          [rewrite <- Heq; apply Pos.le_refl | discriminate E
          | apply Pos.lt_le_incl, Hgt].
      * discriminate E.
      * split; [lia |]. intros He. exfalso. lia.
Qed.

Lemma Pos_iter_xO_value (p k : positive) :
  Zpos (Pos.iter xO p k) = Zpos p * 2 ^ Zpos k.
Proof.
  induction k as [| k IH] using Pos.peano_ind.
  - cbn [Pos.iter]. rewrite Pos2Z.inj_xO. change (2 ^ 1) with 2. ring.
  - rewrite Pos.iter_succ, Pos2Z.inj_xO, IH, Pos2Z.inj_succ, Z.pow_succ_r by lia.
    ring.
Qed.

Lemma shl_align_general (p : positive) (e e' : Z) :
  Zpos (digits2_pos (fst (shl_align p e e'))) + snd (shl_align p e e')
  = Zpos (digits2_pos p) + e
  /\ snd (shl_align p e e') = Z.min e e'.
Proof.
  unfold shl_align.
  destruct (e' - e) as [| k | k] eqn:E; cbn [fst snd]; try lia.
  rewrite digits2_pos_iter_xO. lia.
Qed.

(** [1 - x] for a positive finite [x] below 1 is positive, finite or not,
    and far above the subnormal range. *)
Lemma one_minus_finite (x : float) (m : positive) (e : Z) :
  Prim2SF x = S754_finite false m e -> - 135 <= e <= - 53 ->
  has_sign false (Prim2SF (1.0 - x)%float)
  /\ (forall t, Prim2SF (1.0 - x)%float <> S754_zero t)
  /\ (forall t m' e', Prim2SF (1.0 - x)%float = S754_finite t m' e' -> - 187 <= e').
Proof.
  intros Hx He.
  destruct (valid_digits _ _ _ _ Hx) as [Hdig _].
  rewrite FloatAxioms.sub_spec, Hx.
  change (Prim2SF 1.0%float) with (Prim2SF 1%float). rewrite Prim2SF_one.
  unfold SF64sub, SFsub. rewrite (Z.min_r (-52) e) by lia.
  cbn [cond_Zopp].
  assert (A1 : fst (shl_align 4503599627370496 (-52) e)
               = Pos.iter xO 4503599627370496%positive (Z.to_pos (- 52 - e))).
  { unfold shl_align. destruct (e - -52) as [| k | k] eqn:E; try lia.
    cbn [fst]. f_equal. lia. }
  assert (A2 : fst (shl_align m e e) = m)
    by (unfold shl_align; rewrite Z.sub_diag; reflexivity).
  rewrite A1, A2, Pos_iter_xO_value.
  rewrite Z2Pos.id by lia.
  pose proof (digits2_pos_upper m) as Hm.
  assert (Hp : Zpos m < 2 ^ 53).
  { apply Z.lt_le_trans with (2 ^ Zpos (digits2_pos m)); [exact Hm |].
    apply Z.pow_le_mono_r; lia. }
  assert (Hpow : 2 ^ 53 <= 4503599627370496 * 2 ^ (- 52 - e)).
  { change 4503599627370496 with (2 ^ 52). rewrite <- Z.pow_add_r by lia.
    apply Z.pow_le_mono_r; lia. }
  destruct (4503599627370496 * 2 ^ (- 52 - e) - Zpos m) as [| pD | pD] eqn:ED; try lia.
  cbn [binary_normalize]. unfold binary_round.
  set (e0 := fexp prec emax (Zpos (digits2_pos pD) + e)).
  destruct (shl_align_general pD e e0) as [Hd Hz].
  destruct (shl_align pD e e0) as [mz ez]. cbn [fst snd] in Hd, Hz.
  assert (Hez : e - 52 <= ez).
  { subst ez e0. unfold fexp, SpecFloat.emin.
    change prec with 53. change emax with 1024. lia. }
  split; [apply binary_round_aux_sign |]. split.
  - intros t. apply binary_round_aux_nonzero.
    unfold SpecFloat.emin. change prec with 53. change emax with 1024. lia.
  - intros t m' e' Hf. apply binary_round_aux_exp in Hf. lia.
Qed.

Lemma logistic_accepts_deviate (y : Z) :
  1 <= y < IM -> logistic_rejects (deviate_of (Some (Int y))) = false.
Proof.
  intros Hy. unfold logistic_rejects.
  destruct (deviate_of_finite y Hy) as (m & e & Hv & He & _).
  set (v := deviate_of (Some (Int y))) in *.
  destruct (one_minus_finite v m e Hv He) as (Hs & Hz & Hexp).
  rewrite FloatAxioms.eqb_spec, FloatAxioms.mul_spec, Hv.
  change (Prim2SF 0.0%float) with (Prim2SF 0%float). rewrite Prim2SF_zero.
  destruct (Prim2SF (1.0 - v)%float) as [t | t | | t mw ew] eqn:W.
  - exfalso. apply (Hz t). reflexivity.
  - cbn in Hs. subst t. reflexivity.
  - contradiction.
  - cbn in Hs. subst t. specialize (Hexp false mw ew eq_refl).
    unfold SF64mul, SFmul. cbn [xorb].
    pose proof (binary_round_aux_sign false (m * mw) (e + ew) loc_Exact) as Ps.
    assert (Pz : forall t, binary_round_aux prec emax false (Zpos (m * mw)) (e + ew)
                             loc_Exact <> S754_zero t).
    { intros t. apply binary_round_aux_nonzero.
      pose proof (digits2_pos_mul m mw).
      unfold SpecFloat.emin. change prec with 53. change emax with 1024. lia. }
    destruct (binary_round_aux prec emax false (Zpos (m * mw)) (e + ew) loc_Exact)
      as [t | t | | t mp ep].
    + exfalso. apply (Pz t). reflexivity.
    + cbn in Ps. subst t. reflexivity.
    + contradiction.
    + cbn in Ps. subst t. reflexivity.
Qed.

Section LogisticRuns.

Variable Math_log : float -> float.

Lemma logistic_first_accepted (fuel : nat) (start : num) (mu sig : float)
    (init : bool) (st : state) :
  let stp := if init then adopt_mean_sd mu sig st else st in
  logistic_rejects (fst (uniform start init stp)) = false ->
  logistic Math_log (S fuel) start mu sig init st
  = Some ((u stp + 0.551328895421792050 * s stp
           * Math_log (fst (uniform start init stp)
                       / (1.0 - fst (uniform start init stp))))%float,
          snd (uniform start init stp)).
Proof.
  intros stp Ha. unfold logistic. fold stp. cbn [logistic_loop].
  change (0.0 * (1.0 - 0.0) =? 0.0)%float with true. cbn iota.
  pose proof (uniform_fields start init stp) as (_ & Hu & Hs & _).
  destruct (uniform start init stp) as [v st']. cbn [fst snd] in *.
  unfold logistic_rejects in Ha.
  assert (L : logistic_loop fuel start init v st' = Some (v, st'))
    by (destruct fuel; cbn [logistic_loop]; rewrite Ha; reflexivity).
  rewrite L, Hu, Hs. reflexivity.
Qed.

(** [logistic] never retries on an engine that was seeded with a start
    value that is not a multiple of [IM]: the draw [v] it consumes satisfies
    [v*(1 - v) != 0], so it returns [u + 0.5513...*s*Math.log(v/(1 - v))]
    after exactly one draw, in an initialising call as in a continuation
    call; any bound of at least one iteration suffices. *)
Theorem logistic_one_draw (fuel : nat) (mu sig : float) :
  (forall x st,
     live_seed x = true ->
     let stp := adopt_mean_sd mu sig st in
     let v := fst (uniform x true stp) in
     logistic Math_log (S fuel) x mu sig true st
     = Some ((u stp + 0.551328895421792050 * s stp * Math_log (v / (1.0 - v)))%float,
             snd (uniform x true stp)))
  /\ (forall calls st0 start,
        starts_with_init calls = true ->
        init_seeds live_seed calls = true ->
        let st := snd (run calls st0) in
        let v := fst (uniform start false st) in
        logistic Math_log (S fuel) start mu sig false st
        = Some ((u st + 0.551328895421792050 * s st * Math_log (v / (1.0 - v)))%float,
                snd (uniform start false st))).
Proof.
  split.
  - intros x st Hx stp v. destruct (live_seed_settles x Hx) as (sd & -> & Hs).
    destruct (uniform_true_settled_in 1 sd stp (or_intror eq_refl) Hs)
      as [(y & Hv & Hy) _].
    apply (logistic_first_accepted fuel (Int sd) mu sig true st).
    fold stp. rewrite Hv. apply logistic_accepts_deviate, Hy.
  - intros calls st0 start Hfirst Hseeds st v.
    destruct (run_settled 1 live_seed calls st0 (or_intror eq_refl) live_seed_settles
                (or_intror Hfirst) Hseeds) as [_ Hin].
    destruct (uniform_false_in 1 start st (or_intror eq_refl) Hin) as [(y & Hv & Hy) _].
    apply (logistic_first_accepted fuel start mu sig false st).
    cbn zeta. rewrite Hv. apply logistic_accepts_deviate, Hy.
Qed.

End LogisticRuns.

Lemma logistic_one_draw_witness :
  let stp := adopt_mean_sd 0.0 1.0 constructor in
  let v := fst (uniform (Int 10001) true stp) in
  logistic tangent_log 1 (Int 10001) 0.0 1.0 true constructor
  = Some ((u stp + 0.551328895421792050 * s stp * tangent_log (v / (1.0 - v)))%float,
          snd (uniform (Int 10001) true stp)).
Proof.
  apply (proj1 (logistic_one_draw tangent_log 0 0.0 1.0) (Int 10001) constructor).
  reflexivity.
Defined.

(** * Start values beyond the exact range, and the warm-up *)

(** On start values that the integer embedding covers, the binary64 engine
    returns the same first draw. *)
Lemma uniform64_small_seeds :
  fst (uniform64 1 true constructor64) = fst (uniform (Int 1) true constructor)
  /\ fst (uniform64 10001 true constructor64) = fst (uniform (Int 10001) true constructor)
  /\ fst (uniform64 (-5) true constructor64) = fst (uniform (Int (-5)) true constructor)
  /\ fst (uniform64 2147483647 true constructor64)
     = fst (uniform (Int 2147483647) true constructor)
  /\ fst (uniform64 9007199254740991 true constructor64)
     = fst (uniform (Int 9007199254740991) true constructor).
Proof. repeat split; vm_compute; reflexivity. Qed.

(** C1 as stated fails beyond 2^53.  The start value 1e100 is an integer
    [>= 1]; the recurrence rounds on it, and after the 40 passes of the
    warm-up the seed has not reached the state space: slot 0 holds
    7.09...e33 and the table index is 1.0565...e26, which is no array index.
    On a fresh instance that property is [undefined] and the call returns
    NaN.  The call stores the new seed -1.57...e32 under it, [iv.length = 0]
    does not delete it, and the same call on the advanced instance reads it
    back and returns -7.3...e22. *)
Theorem huge_seed_not_reproducible :
  let sd := 1e100%float in
  let fresh := uniform64 sd true constructor64 in
  let again := uniform64 sd true (snd fresh) in
  (1 <=? sd)%float = true
  /\ Math_floor sd = sd
  /\ snd (uniform_init64 sd constructor64) = Some 7.0906392358903411e+33%float
  /\ table_index64 (snd (uniform_init64 sd constructor64)) = 1.0565875674538697e+26%float
  /\ is_array_index64 1.0565875674538697e+26 = false
  /\ isNaN_f (fst fresh) = true
  /\ idum64 (snd fresh) = (-1.5738108108117526e+32)%float
  /\ get64 (iv64 (fst (uniform_init64 sd (snd fresh)))) 1.0565875674538697e+26
     = Some (-1.5738108108117526e+32)%float
  /\ fst again = (-7.3286276848270346e+22)%float
  /\ isNaN_f (fst again) = false.
Proof. repeat split; vm_compute; reflexivity. Qed.

(** C3 as stated: 39 applications of the recurrence would leave
    [idum] equal to the 39th iterate of the start value.  For start value 1
    it is not. *)
Lemma warmup_not_39_applications :
  idum (fst (uniform_init (Int 1) constructor)) <> Nat.iter 39 schrage (Int 1).
Proof. vm_compute. discriminate. Qed.

(** C3, amended: for a start value that is NaN or an integer of magnitude
    below 2^53, every seed stays in that range (so the recurrence does not
    round), and the [if (init)] block applies the recurrence with the
    constants 16807, 2147483647, 127773, 2836 exactly NTAB + 8 = 40 times
    (the loop counter runs from NTAB + 7 down to 0 inclusive), writes slot
    [i] of the 32-entry table with the value of the iteration whose counter
    is [i] (the last 32 iterations), leaves no other array slot, and takes
    the carry [iy] from slot 0. *)
Theorem uniform_init_warmup (start : num) (st : state) :
  exact_num start = true ->
  (forall n, exact_num (Nat.iter n schrage start) = true)
  /\ (forall x, schrageZ x =
     let k := x / 127773 in
     let x' := 16807 * (x - k * 127773) - 2836 * k in
     if x' <? 0 then x' + 2147483647 else x')
  /\ idum (fst (uniform_init start st)) = Nat.iter 40 schrage start
  /\ (forall i, (i < 32)%nat ->
        iv (fst (uniform_init start st)) !! Int (Z.of_nat i)
        = Some (Nat.iter (40 - i) schrage start))
  /\ (forall k, is_array_index k = true ->
        (forall i, (i < 32)%nat -> k <> Int (Z.of_nat i)) ->
        iv (fst (uniform_init start st)) !! k = None)
  /\ snd (uniform_init start st) = Some (Nat.iter 40 schrage start).
Proof.
  intros Hex.
  split; [intros n; apply iter_schrage_exact, Hex |].
  split; [reflexivity |].
  split; [apply uniform_init_idum |].
  split; [intros i Hi; apply uniform_init_slot, Hi |].
  split; [| apply uniform_init_carry].
  intros k Hk Hne. rewrite uniform_init_rest by exact Hne. rewrite Hk. reflexivity.
Qed.

Lemma uniform_init_warmup_witness :
  iv (fst (uniform_init (Int 10001) constructor)) !! Int (Z.of_nat 31)
  = Some (Nat.iter (40 - 31) schrage (Int 10001))
  /\ iv (fst (uniform_init (Int 10001) constructor)) !! Int 32 = None.
Proof.
  destruct (uniform_init_warmup (Int 10001) constructor eq_refl)
    as (_ & _ & _ & Hslot & Hrest & _).
  split.
  - apply Hslot. lia.
  - apply Hrest; [reflexivity |]. intros i Hi [=]. lia.
Defined.


(** * Rounding is faithful *)

Lemma round_nearest_even_le (m : Z) (l : location) :
  round_nearest_even m l <= m + 1.
Proof.
  destruct l as [| []]; cbn [round_nearest_even]; try lia.
  destruct (Z.even m); lia.
Qed.

Lemma shr_m_div (mrs : shr_record) (e n : Z) :
  0 <= shr_m mrs ->
  shr_m (fst (shr mrs e n)) = shr_m mrs / 2 ^ Z.max n 0.
Proof.
  intros Hm. destruct n as [| p | p]; cbn [shr fst].
  - rewrite Z.div_1_r. reflexivity.
  - rewrite iter_shr_1_div by exact Hm. rewrite Z.max_l by lia. reflexivity.
  - rewrite Z.max_r by lia. rewrite Z.div_1_r. reflexivity.
Qed.

(** The mantissa [m] and the exponent [e] that rounding returns for the
    value [P * 2^E]: the exponent has grown by [N1 + N2], the mantissa is
    [P] shifted by [N1], moved up by at most one, and shifted by [N2]. *)
Lemma binary_round_aux_faithful (sx sr : bool) (P : positive) (E : Z)
    (l : location) (m : positive) (e : Z) :
  binary_round_aux prec emax sx (Zpos P) E l = S754_finite sr m e ->
  exists N1 N2 m2,
    0 <= N1 /\ 0 <= N2 /\ e = E + N1 + N2
    /\ Zpos P / 2 ^ N1 <= m2 <= Zpos P / 2 ^ N1 + 1
    /\ Zpos m = m2 / 2 ^ N2.
Proof.
  unfold binary_round_aux, shr_fexp.
  set (n1 := fexp prec emax (Zdigits2 (Z.pos P) + E) - E).
  pose proof (shr_m_div (shr_record_of_loc (Zpos P) l) E n1) as D1.
  pose proof (shr_exp (shr_record_of_loc (Zpos P) l) E n1) as E1.
  rewrite shr_record_of_loc_m in D1. specialize (D1 ltac:(lia)).
  destruct (shr (shr_record_of_loc (Z.pos P) l) E n1) as [mrs' e'].
  cbn [fst snd] in D1, E1.
  set (m2 := round_nearest_even (shr_m mrs') (loc_of_shr_record mrs')).
  pose proof (round_nearest_even_ge (shr_m mrs') (loc_of_shr_record mrs')) as G.
  pose proof (round_nearest_even_le (shr_m mrs') (loc_of_shr_record mrs')) as L.
  fold m2 in G, L.
  assert (Hq : 0 <= shr_m mrs') by (rewrite D1; apply Z.div_pos; lia).
  set (n2 := fexp prec emax (Zdigits2 m2 + e') - e').
  pose proof (shr_m_div (shr_record_of_loc m2 loc_Exact) e' n2) as D2.
  pose proof (shr_exp (shr_record_of_loc m2 loc_Exact) e' n2) as E2.
  rewrite shr_record_of_loc_m in D2. specialize (D2 ltac:(lia)).
  destruct (shr (shr_record_of_loc m2 loc_Exact) e' n2) as [mrs'' e''].
  cbn [fst snd] in D2, E2.
  destruct (shr_m mrs'') as [| p | p] eqn:Em; try discriminate.
  destruct (e'' <=? emax - prec); try discriminate.
  intros [= <- <- <-].
  exists (Z.max n1 0), (Z.max n2 0), m2.
  split; [lia |]. split; [lia |]. split; [lia |].
  split; [rewrite <- D1; lia | exact D2].
Qed.

(** The same in products: with [A * B = 2^(e - E)], the value [P] lies
    within [A] of [m * A * B] below and within [(B + 1) * A] above. *)
Lemma binary_round_aux_bounds (sx sr : bool) (P : positive) (E : Z)
    (l : location) (m : positive) (e : Z) :
  binary_round_aux prec emax sx (Zpos P) E l = S754_finite sr m e ->
  exists A B,
    1 <= A /\ 1 <= B /\ A * B = 2 ^ (e - E) /\ E <= e
    /\ (Zpos m * B - 1) * A <= Zpos P < ((Zpos m + 1) * B + 1) * A.
Proof.
  intros H. destruct (binary_round_aux_faithful _ _ _ _ _ _ _ H)
    as (N1 & N2 & m2 & HN1 & HN2 & He & Hm2 & Hm).
  exists (2 ^ N1), (2 ^ N2).
  assert (HA : 0 < 2 ^ N1) by (apply Z.pow_pos_nonneg; lia).
  assert (HB : 0 < 2 ^ N2) by (apply Z.pow_pos_nonneg; lia).
  split; [lia |]. split; [lia |].
  split; [rewrite <- Z.pow_add_r by lia; f_equal; lia |].
  split; [lia |].
  set (A := 2 ^ N1) in *. set (B := 2 ^ N2) in *.
  pose proof (Z.mul_div_le (Zpos P) A HA) as Q1.
  pose proof (Z.mul_succ_div_gt (Zpos P) A HA) as Q2.
  pose proof (Z.mul_div_le m2 B HB) as M1.
  pose proof (Z.mul_succ_div_gt m2 B HB) as M2.
  rewrite <- Hm in M1, M2.
  set (q := Zpos P / A) in *.
  split; nia.
Qed.

(** * The deviate is not near one half *)

Lemma shl_align_value (p : positive) (e e' : Z) :
  e' <= e ->
  Zpos (fst (shl_align p e e')) = Zpos p * 2 ^ (e - e')
  /\ snd (shl_align p e e') = e'.
Proof.
  intros He. unfold shl_align.
  destruct (e' - e) as [| k | k] eqn:E; cbn [fst snd]; try lia.
  - replace (e - e') with 0 by lia. split; lia.
  - rewrite Pos_iter_xO_value. replace (e - e') with (Zpos k) by lia. split; lia.
Qed.

(** The binary64 value of a positive integer below 2^53, with its
    mantissa. *)
Lemma float_of_Z_value (y : Z) :
  1 <= y < 2 ^ 53 ->
  exists m e, Prim2SF (float_of_Z y) = S754_finite false m e
              /\ - 52 <= e <= 0 /\ Zpos m = y * 2 ^ (- e).
Proof.
  intros Hy. unfold float_of_Z.
  destruct (Z.ltb_spec y 0) as [? | _]; [lia |].
  rewrite FloatAxioms.of_uint63_spec, Uint63.of_Z_spec.
  rewrite Z.mod_small by (change Uint63Axioms.wB with 9223372036854775808;
    change (2 ^ 53) with 9007199254740992 in Hy; lia).
  destruct y as [| p | p]; try lia.
  cbn [binary_normalize]. unfold binary_round.
  pose proof (digits2_pos_lower p) as Hl.
  assert (Hd : Zpos (digits2_pos p) <= 53).
  { destruct (Z.le_gt_cases (Zpos (digits2_pos p)) 53) as [H | H]; [exact H | exfalso].
    assert (2 ^ 53 <= 2 ^ (Zpos (digits2_pos p) - 1)) by (apply Z.pow_le_mono_r; lia).
    lia. }
  assert (Hf : fexp prec emax (Zpos (digits2_pos p) + 0) = Zpos (digits2_pos p) - 53).
  { unfold fexp, SpecFloat.emin. change prec with 53. change emax with 1024. lia. }
  rewrite Hf.
  destruct (shl_align_digits p 0 (Zpos (digits2_pos p) - 53) ltac:(lia)) as [Hdig Hez].
  destruct (shl_align_value p 0 (Zpos (digits2_pos p) - 53) ltac:(lia)) as [Hval _].
  destruct (shl_align p 0 (Zpos (digits2_pos p) - 53)) as [mz ez].
  cbn [fst snd] in Hdig, Hez, Hval.
  exists mz, ez. split; [| split; [lia |]].
  - apply binary_round_aux_canonical.
    + rewrite Hdig, Hf. lia.
    + change prec with 53. change emax with 1024. lia.
  - rewrite Hval. f_equal. f_equal. lia.
Qed.

(** A finite number with an exponent above the subnormal range has a full
    mantissa. *)
Lemma valid_normal (t : bool) (m : positive) (e : Z) (x : float) :
  Prim2SF x = S754_finite t m e -> - 1074 < e ->
  4503599627370496 <= Zpos m < 9007199254740992.
Proof.
  intros Hx He. pose proof (Prim2SF_valid x) as Hv. rewrite Hx in Hv.
  unfold SpecFloat.valid_binary, bounded, canonical_mantissa in Hv.
  apply andb_true_iff in Hv as [Hc _]. apply Z.eqb_eq in Hc.
  unfold fexp, SpecFloat.emin in Hc.
  change prec with 53 in Hc. change emax with 1024 in Hc.
  assert (Hd : Zpos (digits2_pos m) = 53) by lia.
  pose proof (digits2_pos_lower m) as Hl. pose proof (digits2_pos_upper m) as Hu.
  rewrite Hd in Hl, Hu.
  change (2 ^ (53 - 1)) with 4503599627370496 in Hl.
  change (2 ^ 53) with 9007199254740992 in Hu. lia.
Qed.

(** No table entry [1 <= y < IM] gives a deviate within 1024 units in the
    last place of one half. *)
Lemma deviate_of_away_from_half (y : Z) (m : positive) (e : Z) :
  1 <= y < IM ->
  Prim2SF (deviate_of (Some (Int y))) = S754_finite false m e ->
  (e = - 53 -> 4503599627370496 + 1024 <= Zpos m)
  /\ (e = - 54 -> Zpos m <= 9007199254740992 - 1025).
Proof.
  intros Hy. unfold deviate_of. cbn [ToNumber float_of_num].
  assert (Hy' : 1 <= y < 2 ^ 53)
    by (change (2 ^ 53) with 9007199254740992; unfold IM in Hy; lia).
  destruct (RNMX <? AM * float_of_Z y)%float eqn:E.
  - rewrite Prim2SF_RNMX. intros [= <- <-]. split; lia.
  - intros Hf. pose proof (valid_normal _ _ _ _ Hf) as Hn.
    rewrite FloatAxioms.mul_spec, Prim2SF_AM in Hf.
    destruct (float_of_Z_value y Hy') as (my & ey & Hfy & Hey & Hmy).
    rewrite Hfy in Hf. unfold SF64mul, SFmul in Hf. cbn [xorb] in Hf.
    destruct (binary_round_aux_bounds _ _ _ _ _ _ _ Hf)
      as (A & B & HA & HB & HAB & HE & Hlo & Hhi).
    rewrite Pos2Z.inj_mul, Hmy in Hlo, Hhi.
    set (C := 2 ^ (- ey)) in *.
    assert (HC : 0 < C) by (apply Z.pow_pos_nonneg; lia).
    assert (HAle : A <= A * B) by nia.
    assert (L1 : (Zpos m - 1) * (A * B) <= 4503599629467648 * y * C) by nia.
    assert (U1 : 4503599629467648 * y * C < (Zpos m + 2) * (A * B)) by nia.
    unfold IM in Hy.
    split; intros He; subst e.
    + specialize (Hn ltac:(lia)).
      replace (-53 - (-83 + ey)) with (30 + - ey) in HAB by lia.
      rewrite Z.pow_add_r in HAB by lia. fold C in HAB.
      change (2 ^ 30) with 1073741824 in HAB. rewrite HAB in L1, U1.
      destruct (Z.le_gt_cases (4503599627370496 + 1024) (Zpos m)) as [? | Hlt];
        [assumption | exfalso].
      assert (L2 : (Zpos m - 1) * 1073741824 <= 4503599629467648 * y) by nia.
      assert (U2 : 4503599629467648 * y < (Zpos m + 2) * 1073741824) by nia.
      lia.
    + specialize (Hn ltac:(lia)).
      replace (-54 - (-83 + ey)) with (29 + - ey) in HAB by lia.
      rewrite Z.pow_add_r in HAB by lia. fold C in HAB.
      change (2 ^ 29) with 536870912 in HAB. rewrite HAB in L1, U1.
      destruct (Z.le_gt_cases (Zpos m) (9007199254740992 - 1025)) as [? | Hlt];
        [assumption | exfalso].
      assert (L2 : (Zpos m - 1) * 536870912 <= 4503599629467648 * y) by nia.
      assert (U2 : 4503599629467648 * y < (Zpos m + 2) * 536870912) by nia.
      lia.
Qed.

(** * The centred deviate [2.0*x - 1.0] *)

Lemma Prim2SF_two : Prim2SF 2.0%float = S754_finite false 4503599627370496 (-51).
Proof. vm_compute. reflexivity. Qed.

(** [binary_round] of a positive mantissa: sign kept, not zero above the
    subnormal threshold, and the exponent drops by at most 52. *)
Lemma binary_round_facts (sx : bool) (p : positive) (e : Z) :
  - 1074 < Zpos (digits2_pos p) + e ->
  has_sign sx (binary_round prec emax sx p e)
  /\ (forall t, binary_round prec emax sx p e <> S754_zero t)
  /\ (forall t m' e', binary_round prec emax sx p e = S754_finite t m' e' -> e - 52 <= e').
Proof.
  intros Hd. unfold binary_round.
  set (e0 := fexp prec emax (Zpos (digits2_pos p) + e)).
  destruct (shl_align_general p e e0) as [Hdig Hz].
  destruct (shl_align p e e0) as [mz ez]. cbn [fst snd] in Hdig, Hz.
  assert (Hez : e - 52 <= ez).
  { subst ez e0. unfold fexp, SpecFloat.emin.
    change prec with 53. change emax with 1024. lia. }
  split; [apply binary_round_aux_sign |]. split.
  - intros t. apply binary_round_aux_nonzero.
    unfold SpecFloat.emin. change prec with 53. change emax with 1024. lia.
  - intros t m' e' Hf. apply binary_round_aux_exp in Hf. lia.
Qed.

Lemma centred_nonzero (y : Z) :
  1 <= y < IM ->
  (exists sv, has_sign sv (Prim2SF (2.0 * deviate_of (Some (Int y)) - 1.0)%float))
  /\ (forall t, Prim2SF (2.0 * deviate_of (Some (Int y)) - 1.0)%float <> S754_zero t)
  /\ (forall t m e,
        Prim2SF (2.0 * deviate_of (Some (Int y)) - 1.0)%float = S754_finite t m e ->
        - 238 <= e).
Proof.
  intros Hy.
  destruct (deviate_of_finite y Hy) as (m & e & Hx & He & _).
  destruct (deviate_of_away_from_half y m e Hy Hx) as [Hh1 Hh2].
  pose proof (valid_normal _ _ _ _ Hx ltac:(lia)) as Hm.
  set (x := deviate_of (Some (Int y))) in *.
  assert (H2 : Prim2SF (2.0 * x)%float
               = binary_round_aux prec emax false (Zpos (4503599627370496 * m))
                   (-51 + e) loc_Exact).
  { rewrite FloatAxioms.mul_spec, Hx, Prim2SF_two. reflexivity. }
  pose proof (binary_round_aux_sign false (4503599627370496 * m) (-51 + e) loc_Exact) as S2.
  assert (Z2 : forall t, binary_round_aux prec emax false (Zpos (4503599627370496 * m))
                           (-51 + e) loc_Exact <> S754_zero t).
  { intros t. apply binary_round_aux_nonzero.
    pose proof (digits2_pos_mul 4503599627370496 m) as Hd.
    change (Zpos (digits2_pos 4503599627370496)) with 53 in Hd.
    unfold SpecFloat.emin. change prec with 53. change emax with 1024. lia. }
  rewrite <- H2 in S2, Z2.
  rewrite FloatAxioms.sub_spec.
  change (Prim2SF 1.0%float) with (Prim2SF 1%float). rewrite Prim2SF_one.
  destruct (Prim2SF (2.0 * x)%float) as [t | t | | t m' e'] eqn:F2.
  - exfalso. apply (Z2 t). reflexivity.
  - cbn in S2. subst t. cbn. split; [exists false; reflexivity |].
    split; intros; discriminate.
  - contradiction.
  - cbn in S2. subst t.
    symmetry in H2. pose proof (binary_round_aux_exp _ _ _ _ _ _ _ H2) as He'.
    pose proof (valid_normal _ _ _ _ F2 ltac:(lia)) as Hm'.
    destruct (binary_round_aux_bounds _ _ _ _ _ _ _ H2)
      as (A & B & HA & HB & HAB & _ & Hlo & Hhi).
    rewrite Pos2Z.inj_mul in Hlo, Hhi.
    assert (HAle : A <= A * B) by nia.
    assert (L1 : (Zpos m' - 1) * (A * B) <= 4503599627370496 * Zpos m) by nia.
    assert (U1 : 4503599627370496 * Zpos m < (Zpos m' + 2) * (A * B)) by nia.
    (* twice the deviate is not 1 *)
    assert (Hne : ~ (Zpos m' = 4503599627370496 /\ e' = - 52)).
    { intros [Em Ee]. rewrite Em, Ee in *.
      destruct (Z.eq_dec e (-53)) as [E53 | N53].
      - subst e. specialize (Hh1 eq_refl).
        change (2 ^ (-52 - (-51 + -53))) with 4503599627370496 in HAB.
        rewrite HAB in U1. lia.
      - destruct (Z.eq_dec e (-54)) as [E54 | N54].
        + subst e. specialize (Hh2 eq_refl).
          change (2 ^ (-52 - (-51 + -54))) with 9007199254740992 in HAB.
          rewrite HAB in L1. lia.
        + assert (Hp : 2 ^ 54 <= 2 ^ (-52 - (-51 + e)))
            by (apply Z.pow_le_mono_r; lia).
          change (2 ^ 54) with 18014398509481984 in Hp.
          rewrite <- HAB in Hp.
          assert (Hq : (4503599627370496 - 1) * 18014398509481984
                       <= (4503599627370496 - 1) * (A * B))
            by (apply Z.mul_le_mono_nonneg_l; lia).
          lia. }
    unfold SF64sub, SFsub. cbn [cond_Zopp].
    set (ez := Z.min e' (-52)).
    destruct (shl_align_value m' e' ez ltac:(lia)) as [V1 _].
    destruct (shl_align_value 4503599627370496 (-52) ez ltac:(lia)) as [V2 _].
    set (a1 := fst (shl_align m' e' ez)) in *.
    set (a2 := fst (shl_align 4503599627370496 (-52) ez)) in *.
    assert (HD : Zpos a1 - Zpos a2 <> 0).
    { intros HD. apply Hne. rewrite V1, V2 in HD.
      destruct (Z.le_gt_cases e' (-52)) as [Hle | Hgt].
      - assert (Eez : ez = e') by (unfold ez; lia). rewrite Eez in HD.
        rewrite Z.sub_diag, Z.mul_1_r in HD.
        destruct (Z.eq_dec e' (-52)) as [-> | Hn]; [cbn in HD; lia |].
        exfalso.
        assert (Hp : 2 ^ 1 <= 2 ^ (-52 - e')) by (apply Z.pow_le_mono_r; lia).
        change (2 ^ 1) with 2 in Hp. nia.
      - exfalso. assert (Eez : ez = -52) by (unfold ez; lia). rewrite Eez in HD.
        rewrite Z.sub_diag, Z.mul_1_r in HD.
        assert (Hp : 2 ^ 1 <= 2 ^ (e' - -52)) by (apply Z.pow_le_mono_r; lia).
        change (2 ^ 1) with 2 in Hp. nia. }
    assert (Hez : - 186 <= ez) by (unfold ez; lia).
    destruct (Zpos a1 - Zpos a2) as [| pD | pD] eqn:ED; [contradiction | |];
      cbn [binary_normalize].
    + destruct (binary_round_facts false pD ez ltac:(lia)) as (Hs & Hz & Hx').
      split; [exists false; exact Hs |]. split; [exact Hz |].
      intros t mm ee Hf. specialize (Hx' t mm ee Hf). lia.
    + destruct (binary_round_facts true pD ez ltac:(lia)) as (Hs & Hz & Hx').
      split; [exists true; exact Hs |]. split; [exact Hz |].
      intros t mm ee Hf. specialize (Hx' t mm ee Hf). lia.
Qed.

(** * Signs of the square, the sum and the accepted [rsq] *)

Lemma binary_round_sign (sx : bool) (p : positive) (e : Z) :
  has_sign sx (binary_round prec emax sx p e).
Proof.
  unfold binary_round.
  destruct (shl_align p e (fexp prec emax (Zpos (digits2_pos p) + e))) as [mz ez].
  apply binary_round_aux_sign.
Qed.

Lemma square_sign (x : float) (sx : bool) :
  has_sign sx (Prim2SF x) -> has_sign false (Prim2SF (x * x)%float).
Proof.
  rewrite FloatAxioms.mul_spec.
  destruct (Prim2SF x) as [t | t | | t m e]; cbn [has_sign]; intros H;
    try contradiction; unfold SF64mul, SFmul; rewrite xorb_nilpotent;
    try reflexivity.
  apply binary_round_aux_sign.
Qed.

Lemma add_sign (x y : float) :
  has_sign false (Prim2SF x) -> has_sign false (Prim2SF y) ->
  has_sign false (Prim2SF (x + y)%float).
Proof.
  rewrite FloatAxioms.add_spec.
  destruct (Prim2SF x) as [t | t | | t m e], (Prim2SF y) as [t' | t' | | t' m' e'];
    cbn [has_sign]; intros H H'; try contradiction; subst;
    unfold SF64add, SFadd; try reflexivity.
  cbn [cond_Zopp].
  set (ez := Z.min e e').
  destruct (Zpos (fst (shl_align m e ez)) + Zpos (fst (shl_align m' e' ez)))
    as [| p | p] eqn:E; try lia.
  cbn [binary_normalize]. apply binary_round_sign.
Qed.

(** A non-negative [rsq] that ends the loop lies strictly between 0 and 1. *)
Lemma accepted_range (q : float) :
  has_sign false (Prim2SF q) -> normal_rejects q = false ->
  (0 <? q)%float = true /\ (q <? 1)%float = true
  /\ exists m e, Prim2SF q = S754_finite false m e
                 /\ Zpos (digits2_pos m) + e <= 0.
Proof.
  intros Hs Hr. unfold normal_rejects in Hr.
  apply orb_false_iff in Hr. destruct Hr as [H1 H0].
  rewrite FloatAxioms.leb_spec in H1. rewrite FloatAxioms.eqb_spec in H0.
  change (Prim2SF 1.0%float) with (Prim2SF 1%float) in H1. rewrite Prim2SF_one in H1.
  change (Prim2SF 0.0%float) with (Prim2SF 0%float) in H0. rewrite Prim2SF_zero in H0.
  rewrite !FloatAxioms.ltb_spec, Prim2SF_zero, Prim2SF_one.
  destruct (Prim2SF q) as [t | t | | t m e] eqn:Q; cbn [has_sign] in Hs;
    try contradiction; subst t; try discriminate.
  pose proof (valid_digits _ _ _ _ Q) as [Hd _].
  unfold SFleb, SFcompare in H1. unfold SFltb, SFcompare.
  split; [reflexivity |].
  destruct (Z.compare_spec (-52) e) as [He | Hlt | Hgt]; try discriminate.
  - subst e. rewrite Z.compare_refl.
    rewrite Pos.compare_cont_spec in H1. rewrite Pos.compare_cont_spec.
    rewrite (Pos.compare_antisym 4503599627370496 m).
    destruct (Pos.compare_spec 4503599627370496 m) as [Heq | Hlt | Hgt];
      cbn [Pos.switch_Eq CompOpp] in H1 |- *; try discriminate.
    split; [reflexivity |]. exists m, (-52). split; [reflexivity |].
    assert (Hm : Zpos m < 4503599627370496) by (apply Pos2Z.pos_lt_pos, Hgt).
    clear Hgt H1.
    pose proof (digits2_pos_lower m) as Hl.
    destruct (Z.le_gt_cases (Zpos (digits2_pos m)) 52) as [? | Hbig]; [lia | exfalso].
    assert (Hp : 2 ^ 52 <= 2 ^ (Zpos (digits2_pos m) - 1))
      by (apply Z.pow_le_mono_r; lia).
    change (2 ^ 52) with 4503599627370496 in Hp. lia.
  - destruct (Z.compare_spec e (-52)) as [? | _ | ?]; try lia.
    split; [reflexivity |]. exists m, e. split; [reflexivity | lia].
Qed.

(** * [fac] is a positive number far above the subnormal range *)

Lemma Prim2SF_minus_two :
  Prim2SF (-2.0)%float = S754_finite true 4503599627370496 (-51).
Proof. vm_compute. reflexivity. Qed.

Lemma minus_two_times_negative (L : float) :
  (L <? 0)%float = true ->
  has_sign false (Prim2SF (-2.0 * L)%float)
  /\ forall t, Prim2SF (-2.0 * L)%float <> S754_zero t.
Proof.
  rewrite FloatAxioms.ltb_spec, Prim2SF_zero, FloatAxioms.mul_spec, Prim2SF_minus_two.
  destruct (Prim2SF L) as [t | t | | t m e] eqn:EL; unfold SFltb, SFcompare;
    try discriminate.
  - destruct t; try discriminate. intros _. cbn. split; [reflexivity | discriminate].
  - destruct t; try discriminate. intros _.
    pose proof (valid_digits _ _ _ _ EL) as [_ He].
    unfold SF64mul, SFmul. cbn [xorb]. split; [apply binary_round_aux_sign |].
    intros t. apply binary_round_aux_nonzero.
    pose proof (digits2_pos_mul 4503599627370496 m) as Hd.
    change (Zpos (digits2_pos 4503599627370496)) with 53 in Hd.
    unfold SpecFloat.emin. change prec with 53. change emax with 1024. lia.
Qed.

Lemma div_by_fraction_nonzero (x q : float) (m2 : positive) (e2 : Z) :
  has_sign false (Prim2SF x) -> (forall t, Prim2SF x <> S754_zero t) ->
  Prim2SF q = S754_finite false m2 e2 -> Zpos (digits2_pos m2) + e2 <= 0 ->
  has_sign false (Prim2SF (x / q)%float)
  /\ forall t, Prim2SF (x / q)%float <> S754_zero t.
Proof.
  intros Hs Hz Hq Hd2. rewrite FloatAxioms.div_spec, Hq.
  destruct (Prim2SF x) as [t | t | | t m1 e1] eqn:X; cbn [has_sign] in Hs;
    try contradiction; subst t.
  - exfalso. apply (Hz false). reflexivity.
  - cbn. split; [reflexivity | discriminate].
  - pose proof (valid_digits _ _ _ _ X) as [_ He1]. clear Hz.
    unfold SF64div, SFdiv, SFdiv_core_binary. cbn [Zdigits2 xorb].
    set (d1 := Zpos (digits2_pos m1)). set (d2 := Zpos (digits2_pos m2)).
    assert (Hd1 : 1 <= d1) by (unfold d1; lia).
    set (e' := Z.min (fexp prec emax (d1 + e1 - (d2 + e2))) (e1 - e2)).
    set (s := e1 - e2 - e').
    assert (Hs0 : 0 <= s) by (unfold s, e'; lia).
    assert (Hk : 0 <= d1 - 1 + s - d2).
    { unfold s, e', fexp, SpecFloat.emin. change prec with 53. change emax with 1024.
      fold d2 in Hd2. lia. }
    assert (Hm' : match s with
                  | 0 => Zpos m1
                  | Zpos _ => Z.shiftl (Zpos m1) s
                  | Zneg _ => 0
                  end = Zpos m1 * 2 ^ s).
    { destruct s as [| p | p] eqn:Es; [cbn; lia | | lia].
      rewrite Z.shiftl_mul_pow2 by lia. reflexivity. }
    rewrite Hm'.
    assert (Hq' : 2 ^ (d1 - 1 + s - d2) <= Zpos m1 * 2 ^ s / Zpos m2).
    { apply Z.div_le_lower_bound; [lia |].
      pose proof (digits2_pos_lower m1) as L1. fold d1 in L1.
      pose proof (digits2_pos_upper m2) as U2. fold d2 in U2.
      assert (P0 : 0 < 2 ^ (d1 - 1 + s - d2)) by (apply Z.pow_pos_nonneg; lia).
      assert (P1 : 0 < 2 ^ s) by (apply Z.pow_pos_nonneg; lia).
      assert (E : 2 ^ (d1 - 1) * 2 ^ s = 2 ^ d2 * 2 ^ (d1 - 1 + s - d2)).
      { rewrite <- !Z.pow_add_r by lia. f_equal. lia. }
      nia. }
    unfold Z.div in Hq'.
    destruct (Z.div_eucl (Zpos m1 * 2 ^ s) (Zpos m2)) as [qq r]. cbn [fst] in Hq'.
    assert (P0 : 0 < 2 ^ (d1 - 1 + s - d2)) by (apply Z.pow_pos_nonneg; lia).
    destruct qq as [| p | p]; try lia.
    split; [apply binary_round_aux_sign |].
    intros t. apply binary_round_aux_nonzero.
    pose proof (digits2_pos_upper p) as Up.
    assert (Hdp : d1 - 1 + s - d2 < Zpos (digits2_pos p))
      by (apply (Z.pow_lt_mono_r_iff 2); lia).
    unfold SpecFloat.emin. change prec with 53. change emax with 1024.
    fold d2 in Hd2. unfold s in Hdp. lia.
Qed.

Lemma sqrt_positive (x : float) :
  has_sign false (Prim2SF x) -> (forall t, Prim2SF x <> S754_zero t) ->
  has_sign false (Prim2SF (PrimFloat.sqrt x))
  /\ (forall t, Prim2SF (PrimFloat.sqrt x) <> S754_zero t)
  /\ (forall t m e, Prim2SF (PrimFloat.sqrt x) = S754_finite t m e -> - 589 <= e).
Proof.
  intros Hs Hz. rewrite FloatAxioms.sqrt_spec.
  destruct (Prim2SF x) as [t | t | | t m1 e1] eqn:X; cbn [has_sign] in Hs;
    try contradiction; subst t.
  - exfalso. apply (Hz false). reflexivity.
  - cbn. split; [reflexivity |]. split; intros; discriminate.
  - pose proof (valid_digits _ _ _ _ X) as [_ He1]. clear Hz.
    unfold SF64sqrt, SFsqrt, SFsqrt_core_binary. cbn [Zdigits2].
    set (d1 := Zpos (digits2_pos m1)).
    assert (Hd1 : 1 <= d1) by (unfold d1; lia).
    set (e' := Z.min (fexp prec emax (Z.div2 (d1 + e1 + 1))) (Z.div2 e1)).
    set (s := e1 - 2 * e').
    assert (He' : - 589 <= e' /\ 2 * e' <= e1).
    { unfold e', fexp, SpecFloat.emin. change prec with 53. change emax with 1024.
      rewrite !Z.div2_div. Z.div_mod_to_equations. lia. }
    assert (Hm' : 1 <= match s with
                       | 0 => Zpos m1
                       | Zpos _ => Z.shiftl (Zpos m1) s
                       | Zneg _ => 0
                       end).
    { destruct s as [| p | p] eqn:Es; [lia | | lia].
      rewrite Z.shiftl_mul_pow2 by lia.
      assert (0 < 2 ^ Zpos p) by (apply Z.pow_pos_nonneg; lia). nia. }
    set (m' := match s with
               | 0 => Zpos m1
               | Zpos _ => Z.shiftl (Zpos m1) s
               | Zneg _ => 0
               end) in *.
    pose proof (Z.sqrtrem_sqrt m') as Hsq.
    assert (Hpos : 0 < Z.sqrt m') by (apply Z.sqrt_pos; lia).
    destruct (Z.sqrtrem m') as [qq r]. cbn [fst] in Hsq. rewrite <- Hsq in Hpos.
    destruct qq as [| p | p]; try lia.
    set (l := if r =? 0 then loc_Exact
              else loc_Inexact (if r <=? Zpos p then Lt else Gt)).
    split; [apply binary_round_aux_sign |]. split.
    + intros t. apply binary_round_aux_nonzero.
      unfold SpecFloat.emin. change prec with 53. change emax with 1024. lia.
    + intros t m e Hf. apply binary_round_aux_exp in Hf. lia.
Qed.

(** The product of a number that is not 0 and a positive number, both far
    above the subnormal range, is not 0. *)
Lemma product_nonzero (v f : float) :
  (exists sv, has_sign sv (Prim2SF v)) ->
  (forall t, Prim2SF v <> S754_zero t) ->
  (forall t m e, Prim2SF v = S754_finite t m e -> - 238 <= e) ->
  has_sign false (Prim2SF f) ->
  (forall t, Prim2SF f <> S754_zero t) ->
  (forall t m e, Prim2SF f = S754_finite t m e -> - 589 <= e) ->
  (v * f =? 0.0)%float = false.
Proof.
  intros [sv Hsv] Hzv Hev Hsf Hzf Hef.
  rewrite FloatAxioms.eqb_spec, FloatAxioms.mul_spec.
  change (Prim2SF 0.0%float) with (Prim2SF 0%float). rewrite Prim2SF_zero.
  destruct (Prim2SF v) as [t | t | | t mv ev]; cbn [has_sign] in Hsv;
    try contradiction; subst t.
  - exfalso. apply (Hzv sv). reflexivity.
  - destruct (Prim2SF f) as [t | t | | t mf ef]; cbn [has_sign] in Hsf;
      try contradiction; subst t; [exfalso; apply (Hzf false); reflexivity | |];
      destruct sv; reflexivity.
  - specialize (Hev sv mv ev eq_refl).
    destruct (Prim2SF f) as [t | t | | t mf ef]; cbn [has_sign] in Hsf;
      try contradiction; subst t; [exfalso; apply (Hzf false); reflexivity | |].
    + destruct sv; reflexivity.
    + specialize (Hef false mf ef eq_refl).
      unfold SF64mul, SFmul.
      pose proof (binary_round_aux_sign (xorb sv false) (mv * mf) (ev + ef) loc_Exact) as Ps.
      assert (Pz : forall t, binary_round_aux prec emax (xorb sv false) (Zpos (mv * mf))
                               (ev + ef) loc_Exact <> S754_zero t).
      { intros t. apply binary_round_aux_nonzero.
        pose proof (digits2_pos_mul mv mf).
        unfold SpecFloat.emin. change prec with 53. change emax with 1024. lia. }
      destruct (binary_round_aux prec emax (xorb sv false) (Zpos (mv * mf)) (ev + ef)
                  loc_Exact) as [t | t | | t mp ep]; cbn [has_sign] in Ps.
      * exfalso. apply (Pz t). reflexivity.
      * destruct t; reflexivity.
      * contradiction.
      * destruct t; reflexivity.
Qed.

(** The value that a fresh pair leaves in the cache is not the sentinel. *)
Lemma fresh_cache_nonzero (Math_log : float -> float) (y1 y2 : Z) :
  log_negative Math_log ->
  1 <= y1 < IM -> 1 <= y2 < IM ->
  let v1 := (2.0 * deviate_of (Some (Int y1)) - 1.0)%float in
  let v2 := (2.0 * deviate_of (Some (Int y2)) - 1.0)%float in
  let rsq := (v1 * v1 + v2 * v2)%float in
  normal_rejects rsq = false ->
  (v1 * PrimFloat.sqrt (-2.0 * Math_log rsq / rsq) =? 0.0)%float = false.
Proof.
  intros Hlog Hy1 Hy2 v1 v2 rsq Hacc.
  destruct (centred_nonzero y1 Hy1) as ([s1 Hs1] & Hz1 & He1).
  destruct (centred_nonzero y2 Hy2) as ([s2 Hs2] & _ & _).
  fold v1 in Hs1, Hz1, He1. fold v2 in Hs2.
  assert (Hsq : has_sign false (Prim2SF rsq)).
  { apply add_sign; [apply (square_sign v1 s1 Hs1) | apply (square_sign v2 s2 Hs2)]. }
  destruct (accepted_range rsq Hsq Hacc) as (H0 & H1 & mq & eq & Hq & Hdq).
  pose proof (Hlog rsq H0 H1) as HL.
  destruct (minus_two_times_negative _ HL) as [Ht1 Hzt1].
  destruct (div_by_fraction_nonzero _ rsq mq eq Ht1 Hzt1 Hq Hdq) as [Ht2 Hzt2].
  destruct (sqrt_positive _ Ht2 Hzt2) as (Hf & Hzf & Hef).
  apply product_nonzero; try assumption. exists s1. exact Hs1.
Qed.

(** The stand-in for [Math.log] is negative between 0 and 1. *)
Lemma tangent_log_negative : log_negative tangent_log.
Proof.
  intros q H0 H1. unfold tangent_log.
  rewrite FloatAxioms.ltb_spec, Prim2SF_zero in H0.
  rewrite FloatAxioms.ltb_spec, Prim2SF_one in H1.
  rewrite FloatAxioms.ltb_spec, Prim2SF_zero, FloatAxioms.sub_spec.
  change (Prim2SF 1.0%float) with (Prim2SF 1%float). rewrite Prim2SF_one.
  destruct (Prim2SF q) as [t | t | | t m e] eqn:Q; try discriminate.
  - destruct t; discriminate.
  - destruct t; [discriminate |]. clear H0.
    pose proof (valid_digits _ _ _ _ Q) as [Hd He].
    pose proof (digits2_pos_upper m) as Hu.
    assert (Hm53 : Zpos m < 2 ^ 53).
    { apply Z.lt_le_trans with (2 ^ Zpos (digits2_pos m)); [exact Hu |].
      apply Z.pow_le_mono_r; lia. }
    change (2 ^ 53) with 9007199254740992 in Hm53.
    assert (Hlt : e <= - 52 /\ (e = - 52 -> Zpos m < 4503599627370496)).
    { unfold SFltb, SFcompare in H1.
      destruct (Z.compare_spec e (-52)) as [-> | Hl | Hg]; try discriminate; [| lia].
      split; [lia |]. intros _.
      rewrite Pos.compare_cont_spec in H1.
      destruct (Pos.compare_spec m 4503599627370496) as [? | Hl | ?];
        cbn [Pos.switch_Eq] in H1; try discriminate.
      apply Pos2Z.pos_lt_pos, Hl. }
    clear H1. destruct Hlt as [Hle Hm52].
    unfold SF64sub, SFsub. cbn [cond_Zopp]. rewrite (Z.min_l e (-52)) by lia.
    destruct (shl_align_value m e e ltac:(lia)) as [V1 _].
    destruct (shl_align_value 4503599627370496 (-52) e ltac:(lia)) as [V2 _].
    rewrite Z.sub_diag, Z.mul_1_r in V1.
    set (a1 := fst (shl_align m e e)) in *.
    set (a2 := fst (shl_align 4503599627370496 (-52) e)) in *.
    assert (HD : Zpos a1 - Zpos a2 < 0).
    { rewrite V1, V2.
      destruct (Z.eq_dec e (-52)) as [-> | Hne].
      - specialize (Hm52 eq_refl). cbn. lia.
      - assert (Hp : 2 ^ 1 <= 2 ^ (-52 - e)) by (apply Z.pow_le_mono_r; lia).
        change (2 ^ 1) with 2 in Hp. lia. }
    destruct (Zpos a1 - Zpos a2) as [| pD | pD] eqn:ED; try lia.
    cbn [binary_normalize].
    destruct (binary_round_facts true pD e ltac:(lia)) as (Hs & Hz & _).
    destruct (binary_round prec emax true pD e) as [t | t | | t mm ee];
      cbn [has_sign] in Hs; try contradiction; subst t.
    + exfalso. apply (Hz true). reflexivity.
    + reflexivity.
    + reflexivity.
Qed.

(** * Two consecutive calls of [normal] *)

Lemma live_engine_spec (st : state) :
  live_engine st = true <-> engine_in 1 st.
Proof.
  unfold live_engine, engine_in. split.
  - destruct (idum st) as [| x]; [discriminate |].
    destruct (iv st !! Int 0) as [[| y] |]; try discriminate.
    intros H. repeat (apply andb_true_iff in H as [H ?]).
    exists x, y. repeat split; lia.
  - intros (x & y & -> & Hx & -> & Hy).
    repeat (apply andb_true_iff; split); lia.
Qed.

(** A draw from a live source is the deviate of a table entry that is not
    0, and leaves the source live. *)
Lemma live_source_uniform (start : num) (init : bool) (st : state) :
  live_source start init st = true ->
  (exists y, fst (uniform start init st) = deviate_of (Some (Int y)) /\ 1 <= y < IM)
  /\ live_source start init (snd (uniform start init st)) = true.
Proof.
  destruct init; cbn [live_source]; intros H.
  - destruct (live_seed_settles start H) as (sd & -> & Hs).
    destruct (uniform_true_settled_in 1 sd st (or_intror eq_refl) Hs) as [Hy _].
    split; [exact Hy | exact H].
  - apply live_engine_spec in H.
    destruct (uniform_false_in 1 start st (or_intror eq_refl) H) as [Hy Hin].
    split; [exact Hy | apply live_engine_spec, Hin].
Qed.

Lemma live_source_adopt (start : num) (init : bool) (mu sig : float) (st : state) :
  live_source start init (adopt_mean_sd mu sig st) = live_source start init st.
Proof. destruct init; reflexivity. Qed.

Lemma live_source_set_normVal (start : num) (init : bool) (x : float) (st : state) :
  live_source start init (set_normVal st x) = live_source start init st.
Proof. destruct init; reflexivity. Qed.

Lemma draw_pair_live (start : num) (init : bool) (st : state) :
  live_source start init st = true ->
  exists y1 y2,
    1 <= y1 < IM /\ 1 <= y2 < IM
    /\ fst (fst (fst (draw_pair start init st)))
       = (2.0 * deviate_of (Some (Int y1)) - 1.0)%float
    /\ snd (fst (fst (draw_pair start init st)))
       = (2.0 * deviate_of (Some (Int y2)) - 1.0)%float
    /\ snd (fst (draw_pair start init st))
       = ((2.0 * deviate_of (Some (Int y1)) - 1.0)
          * (2.0 * deviate_of (Some (Int y1)) - 1.0)
          + (2.0 * deviate_of (Some (Int y2)) - 1.0)
            * (2.0 * deviate_of (Some (Int y2)) - 1.0))%float
    /\ live_source start init (snd (draw_pair start init st)) = true.
Proof.
  intros H. unfold draw_pair.
  destruct (live_source_uniform start init st H) as [(y1 & E1 & Hy1) H1].
  destruct (uniform start init st) as [x1 st1]. cbn [fst snd] in E1, H1.
  destruct (live_source_uniform start init st1 H1) as [(y2 & E2 & Hy2) H2].
  destruct (uniform start init st1) as [x2 st2]. cbn [fst snd] in E2, H2 |- *.
  subst x1 x2. exists y1, y2. repeat split; try assumption; lia.
Qed.

Lemma draw_pair_fields (start : num) (init : bool) (st : state) :
  let st' := snd (draw_pair start init st) in
  normVal st' = normVal st /\ u st' = u st /\ s st' = s st.
Proof.
  unfold draw_pair.
  pose proof (uniform_fields start init st) as (N1 & U1 & S1 & _).
  destruct (uniform start init st) as [x1 st1]. cbn [snd] in N1, U1, S1.
  pose proof (uniform_fields start init st1) as (N2 & U2 & S2 & _).
  destruct (uniform start init st1) as [x2 st2]. cbn [snd] in N2, U2, S2 |- *.
  repeat split; congruence.
Qed.

Lemma draw_pair_idum (start : num) (st : state) :
  idum (snd (draw_pair start false st)) = schrage (schrage (idum st)).
Proof. unfold draw_pair. rewrite !uniform_false. reflexivity. Qed.

Lemma passes_live (k : nat) (start : num) (init : bool) (st : state) :
  live_source start init st = true ->
  live_source start init (snd (passes k start init st)) = true.
Proof.
  intros H. induction k as [| k IH]; [exact H |].
  cbn [passes]. destruct (draw_pair_live start init _ IH) as (_ & _ & _ & _ & _ & _ & _ & L).
  exact L.
Qed.

Lemma passes_fields (k : nat) (start : num) (init : bool) (st : state) :
  let st' := snd (passes k start init st) in
  normVal st' = normVal st /\ u st' = u st /\ s st' = s st.
Proof.
  induction k as [| k IH]; [repeat split |].
  cbn [passes]. cbn zeta in IH |- *.
  pose proof (draw_pair_fields start init (snd (passes k start init st))) as F.
  cbn zeta in F. destruct IH as (? & ? & ?), F as (? & ? & ?).
  repeat split; congruence.
Qed.

Lemma passes_idum (k : nat) (start : num) (st : state) :
  idum (snd (passes k start false st)) = Nat.iter (2 * k) schrage (idum st).
Proof.
  induction k as [| k IH]; [reflexivity |].
  cbn [passes]. rewrite draw_pair_idum, IH.
  replace (2 * S k)%nat with (S (S (2 * k))) by lia. reflexivity.
Qed.

(** One turn of the loop on locals that do not end it is one pass. *)
Lemma normal_loop_step (fuel : nat) (start : num) (init : bool)
    (v1 v2 rsq : float) (st : state) :
  normal_rejects rsq = true ->
  normal_loop (S fuel) start init v1 v2 rsq st
  = let '(v1', v2', rsq', st') := draw_pair start init st in
    normal_loop fuel start init v1' v2' rsq' st'.
Proof.
  intros Hr. cbn [normal_loop]. unfold normal_rejects in Hr. rewrite Hr.
  unfold draw_pair.
  destruct (uniform start init st) as [x1 st1].
  destruct (uniform start init st1) as [x2 st2]. reflexivity.
Qed.

Lemma normal_loop_stop (fuel : nat) (start : num) (init : bool)
    (v1 v2 rsq : float) (st : state) :
  normal_rejects rsq = false ->
  normal_loop fuel start init v1 v2 rsq st = Some (v1, v2, rsq, st).
Proof.
  intros Hr. unfold normal_rejects in Hr.
  destruct fuel; cbn [normal_loop]; rewrite Hr; reflexivity.
Qed.

Lemma normal_loop_from (n : nat) :
  forall (j fuel : nat) (start : num) (init : bool) (st : state),
    (n <= fuel)%nat ->
    (forall i, (j <= i < j + n)%nat ->
       normal_rejects (snd (fst (passes i start init st))) = true) ->
    normal_rejects (snd (fst (passes (j + n) start init st))) = false ->
    (let '(v1, v2, rsq, stj) := passes j start init st in
     normal_loop fuel start init v1 v2 rsq stj)
    = Some (passes (j + n) start init st).
Proof.
  induction n as [| n IH]; intros j fuel start init st Hf Hrej Hacc.
  - rewrite Nat.add_0_r in Hacc |- *.
    destruct (passes j start init st) as [[[v1 v2] rsq] stj]. cbn [fst snd] in Hacc.
    apply normal_loop_stop, Hacc.
  - destruct fuel as [| fuel]; [lia |].
    pose proof (Hrej j ltac:(lia)) as Hj.
    specialize (IH (S j) fuel start init st ltac:(lia)).
    replace (S j + n)%nat with (j + S n)%nat in IH by lia.
    specialize (IH ltac:(intros i Hi; apply Hrej; lia) Hacc).
    cbn [passes] in IH.
    destruct (passes j start init st) as [[[v1 v2] rsq] stj]. cbn [fst snd] in Hj, IH.
    rewrite normal_loop_step by exact Hj. exact IH.
Qed.

Lemma first_accepted_spec (k : nat) (start : num) (init : bool) (st : state) :
  first_accepted k start init st = true ->
  (1 <= k)%nat
  /\ normal_rejects (snd (fst (passes k start init st))) = false
  /\ forall i, (i < k)%nat -> normal_rejects (snd (fst (passes i start init st))) = true.
Proof.
  unfold first_accepted. intros H. apply andb_true_iff in H as [Ha Hr].
  apply negb_true_iff in Ha.
  split; [| split; [exact Ha |]].
  - destruct k; [| lia]. cbn in Ha. discriminate.
  - intros i Hi. rewrite forallb_forall in Hr. apply Hr, in_seq. lia.
Qed.

Lemma normal_loop_passes (k fuel : nat) (start : num) (init : bool) (st : state) :
  first_accepted k start init st = true -> (k <= fuel)%nat ->
  normal_loop fuel start init nan nan 0.0%float st = Some (passes k start init st).
Proof.
  intros H Hf. destruct (first_accepted_spec k start init st H) as (_ & Ha & Hr).
  apply (normal_loop_from k 0 fuel start init st Hf).
  - intros i Hi. apply Hr. lia.
  - exact Ha.
Qed.

Section FreshCall.

Variable Math_log : float -> float.
Hypothesis Hlog : log_negative Math_log.

(** A call that finds the cache empty, on a live source, with the [k]-th
    pair the first that ends the loop. *)
Lemma normal_fresh (k fuel : nat) (start : num) (mu sig : float) (init : bool)
    (st : state) :
  cache_empty st = true ->
  live_source start init st = true ->
  first_accepted k start init (if init then adopt_mean_sd mu sig st else st) = true ->
  (k <= fuel)%nat ->
  let p := passes k start init (if init then adopt_mean_sd mu sig st else st) in
  let v1 := fst (fst (fst p)) in
  let v2 := snd (fst (fst p)) in
  let rsq := snd (fst p) in
  let fac := PrimFloat.sqrt (-2.0 * Math_log rsq / rsq)%float in
  normal Math_log fuel start mu sig init st
  = Some ((u (snd p) + s (snd p) * v2 * fac)%float, set_normVal (snd p) (v1 * fac)%float)
  /\ cache_empty (set_normVal (snd p) (v1 * fac)%float) = false.
Proof.
  intros Hc Hl Hk Hf.
  set (stp := if init then adopt_mean_sd mu sig st else st) in *.
  assert (Hlp : live_source start init stp = true)
    by (unfold stp; destruct init; [rewrite live_source_adopt |]; exact Hl).
  assert (Hcp : cache_empty stp = true) by (unfold stp; destruct init; exact Hc).
  intros p v1 v2 rsq fac. split.
  - unfold normal. fold stp. rewrite Hcp.
    rewrite (normal_loop_passes k fuel start init stp Hk Hf). fold p.
    unfold v1, v2, fac, rsq. destruct p as [[[w1 w2] q] stl]. reflexivity.
  - destruct (first_accepted_spec k start init stp Hk) as (H1 & Ha & _).
    destruct k as [| k]; [lia |].
    unfold cache_empty. cbn [normVal set_normVal].
    unfold fac, rsq, v1, p. cbn [passes].
    fold p in Ha. unfold p in Ha. cbn [passes] in Ha.
    pose proof (passes_live k start init stp Hlp) as Hlk.
    destruct (draw_pair_live start init _ Hlk) as (y1 & y2 & Hy1 & Hy2 & E1 & _ & Eq & _).
    rewrite Eq in Ha |- *. rewrite E1.
    apply (fresh_cache_nonzero Math_log y1 y2 Hlog Hy1 Hy2 Ha).
Qed.

End FreshCall.

(** C7: of two consecutive calls of [normal], one computes a fresh pair and
    one consumes the cache, in either order.  [Math.log] is any function
    that is negative between 0 and 1; the engine draws from a live source
    (an integer start value of magnitude below 2^53 that is not a multiple
    of [IM], or an engine left by one), and [k] is the pass of the rejection
    loop that ends it.

    A call that finds the cache empty returns for every bound of at least
    [k] passes.  It makes [2*k >= 2] draws, returns [u + s*v2*fac] and
    caches [v1*fac] of the [k]-th pair, and this cached value is never the
    sentinel 0.0.  So the next call, whatever its arguments, finds the cache
    filled: it returns [u + s*cached] with no pass of the loop at all,
    leaves the engine alone and clears the cache.

    A call that finds the cache filled does the latter, and the call after
    it finds the cache empty and computes a fresh pair as above. *)
Theorem normal_cache_alternates (Math_log : float -> float) (k : nat)
    (start start' : num) (mu sig mu' sig' : float) (init init' : bool)
    (st : state) :
  log_negative Math_log ->
  (cache_empty st = true ->
   live_source start init st = true ->
   first_accepted k start init (if init then adopt_mean_sd mu sig st else st) = true ->
   let p := passes k start init (if init then adopt_mean_sd mu sig st else st) in
   let v1 := fst (fst (fst p)) in
   let v2 := snd (fst (fst p)) in
   let rsq := snd (fst p) in
   let fac := PrimFloat.sqrt (-2.0 * Math_log rsq / rsq)%float in
   let st1 := set_normVal (snd p) (v1 * fac)%float in
   let st1p := if init' then adopt_mean_sd mu' sig' st1 else st1 in
   (1 <= k)%nat
   /\ (forall fuel, (k <= fuel)%nat ->
         normal Math_log fuel start mu sig init st
         = Some ((u (snd p) + s (snd p) * v2 * fac)%float, st1))
   /\ (init = false -> idum st1 = Nat.iter (2 * k) schrage (idum st))
   /\ cache_empty st1 = false
   /\ (forall fuel', normal Math_log fuel' start' mu' sig' init' st1
         = Some ((u st1p + s st1p * (v1 * fac))%float, set_normVal st1p 0.0%float))
   /\ idum (set_normVal st1p 0.0%float) = idum st1
   /\ iv (set_normVal st1p 0.0%float) = iv st1
   /\ cache_empty (set_normVal st1p 0.0%float) = true)
  /\ (cache_empty st = false ->
      let stp := if init then adopt_mean_sd mu sig st else st in
      let st1 := set_normVal stp 0.0%float in
      let st1p := if init' then adopt_mean_sd mu' sig' st1 else st1 in
      (forall fuel, normal Math_log fuel start mu sig init st
         = Some ((u stp + s stp * normVal st)%float, st1))
      /\ idum st1 = idum st /\ iv st1 = iv st
      /\ cache_empty st1 = true
      /\ (live_source start' init' st1 = true ->
          first_accepted k start' init' st1p = true ->
          let p := passes k start' init' st1p in
          let v1 := fst (fst (fst p)) in
          let v2 := snd (fst (fst p)) in
          let rsq := snd (fst p) in
          let fac := PrimFloat.sqrt (-2.0 * Math_log rsq / rsq)%float in
          (1 <= k)%nat
          /\ (forall fuel', (k <= fuel')%nat ->
                normal Math_log fuel' start' mu' sig' init' st1
                = Some ((u (snd p) + s (snd p) * v2 * fac)%float,
                        set_normVal (snd p) (v1 * fac)%float))
          /\ (init' = false -> idum (snd p) = Nat.iter (2 * k) schrage (idum st))
          /\ cache_empty (set_normVal (snd p) (v1 * fac)%float) = false)).
Proof.
  intros Hlog. split.
  - intros Hc Hl Hk p v1 v2 rsq fac st1 st1p.
    destruct (first_accepted_spec k start init _ Hk) as (H1 & _ & _).
    assert (Hne : cache_empty st1 = false)
      by (apply (normal_fresh Math_log Hlog k k start mu sig init st Hc Hl Hk (le_n k))).
    split; [exact H1 |]. split.
    { intros fuel Hf.
      apply (normal_fresh Math_log Hlog k fuel start mu sig init st Hc Hl Hk Hf). }
    split; [intros ->; apply passes_idum |].
    split; [exact Hne |].
    split; [intros fuel'; apply (normal_pending Math_log fuel' start' mu' sig' init' st1 Hne) |].
    unfold st1p. destruct init'; repeat split.
  - intros Hc stp st1 st1p.
    split; [intros fuel; apply (normal_pending Math_log fuel start mu sig init st Hc) |].
    assert (Hi : idum st1 = idum st /\ iv st1 = iv st)
      by (unfold st1, stp; destruct init; split; reflexivity).
    destruct Hi as [Hi Ht].
    split; [exact Hi |]. split; [exact Ht |]. split; [reflexivity |].
    intros Hl Hk p v1 v2 rsq fac.
    destruct (first_accepted_spec k start' init' _ Hk) as (H1 & _ & _).
    split; [exact H1 |]. split.
    { intros fuel' Hf.
      apply (normal_fresh Math_log Hlog k fuel' start' mu' sig' init' st1 eq_refl Hl Hk Hf). }
    split.
    { intros ->. unfold p, st1p. rewrite passes_idum, Hi. reflexivity. }
    apply (normal_fresh Math_log Hlog k k start' mu' sig' init' st1 eq_refl Hl Hk (le_n k)).
Qed.

Lemma normal_cache_alternates_witness :
  let st := snd (uniform (Int 1) true constructor) in
  let p := passes 2 (Int 1) false st in
  let v1 := fst (fst (fst p)) in
  let v2 := snd (fst (fst p)) in
  let rsq := snd (fst p) in
  let fac := PrimFloat.sqrt (-2.0 * tangent_log rsq / rsq)%float in
  let st1 := set_normVal (snd p) (v1 * fac)%float in
  let st2 := set_normVal st1 0.0%float in
  let p' := passes 1 (Int 1) false st2 in
  let v1' := fst (fst (fst p')) in
  let v2' := snd (fst (fst p')) in
  let rsq' := snd (fst p') in
  let fac' := PrimFloat.sqrt (-2.0 * tangent_log rsq' / rsq')%float in
  ((1 <= 2)%nat
   /\ (forall fuel, (2 <= fuel)%nat ->
         normal tangent_log fuel (Int 1) 0.5 0.2 false st
         = Some ((u (snd p) + s (snd p) * v2 * fac)%float, st1))
   /\ (false = false -> idum st1 = Nat.iter (2 * 2) schrage (idum st))
   /\ cache_empty st1 = false
   /\ (forall fuel', normal tangent_log fuel' (Int 7) 0.5 0.2 false st1
         = Some ((u st1 + s st1 * (v1 * fac))%float, st2))
   /\ idum st2 = idum st1
   /\ iv st2 = iv st1
   /\ cache_empty st2 = true)
  /\ ((forall fuel, normal tangent_log fuel (Int 7) 0.5 0.2 false st1
         = Some ((u st1 + s st1 * normVal st1)%float, st2))
      /\ idum st2 = idum st1 /\ iv st2 = iv st1
      /\ cache_empty st2 = true
      /\ (1 <= 1)%nat
      /\ (forall fuel', (1 <= fuel')%nat ->
            normal tangent_log fuel' (Int 1) 0.5 0.2 false st2
            = Some ((u (snd p') + s (snd p') * v2' * fac')%float,
                    set_normVal (snd p') (v1' * fac')%float))
      /\ (false = false -> idum (snd p') = Nat.iter (2 * 1) schrage (idum st1))
      /\ cache_empty (set_normVal (snd p') (v1' * fac')%float) = false).
Proof.
  intros st p v1 v2 rsq fac st1 st2 p' v1' v2' rsq' fac'. split.
  - exact (proj1 (normal_cache_alternates tangent_log 2 (Int 1) (Int 7) 0.5 0.2 0.5 0.2
                    false false st tangent_log_negative)
             ltac:(vm_compute; reflexivity) ltac:(vm_compute; reflexivity)
             ltac:(vm_compute; reflexivity)).
  - destruct (proj2 (normal_cache_alternates tangent_log 1 (Int 7) (Int 1) 0.5 0.2 0.5 0.2
                       false false st1 tangent_log_negative)
                ltac:(vm_compute; reflexivity)) as (A & B & C & D & E).
    split; [exact A |]. split; [exact B |]. split; [exact C |]. split; [exact D |].
    exact (E ltac:(vm_compute; reflexivity) ltac:(vm_compute; reflexivity)).
Defined.
